(** * pycccedict: the CC-CEDICT line parser and dictionary store

    A shallow embedding of [src/pycccedict/cccedict.py] (class [CcCedict]):
    the line grammar of [_parse_line], the index build of [_parse_file] and
    the queries [get_entry], [get_entries], [get_data_days_old].

    Python values are modelled as follows.
    - [str] is a sequence of Unicode code points: [pystr := list N].
    - The entry dict returned by [_parse_line] has the four fixed keys
      ['traditional'], ['simplified'], ['pinyin'], ['definitions']: a record.
    - The two [dict]s [str -> int] are [gmap pystr nat]; [d[k] = i] is insert.
    - Exceptions are a result type; the attribute [self._data_datetime]
      written by [_parse_line] is threaded through explicitly.
    - [datetime] and [datetime.strptime] belong to the Python library, not to
      this repository: they are an interface ([DatetimeLib]). *)

From Stdlib Require Import NArith ZArith Ascii String List Bool Lia.
From stdpp Require Import base option list countable gmap.

Local Open Scope N_scope.

(** ** Strings *)

(** A Python [str]: code points. *)
Abbreviation char := N (only parsing).
Abbreviation pystr := (list N) (only parsing).

(** [ord c] for a one-character ASCII literal. *)
Definition ord (c : ascii) : N := N_of_ascii c.
Arguments ord c%_char : simpl never.

(** Continuation-byte payload of a UTF-8 sequence. *)
Definition cont (b : N) : N := N.land b 63.

(** The text decoding done by [gzip.open(path, mode='rt', encoding='utf-8')],
    on well-formed input. Used to write string literals. *)
Fixpoint utf8_decode (bs : list N) : pystr :=
  match bs with
  | [] => []
  | b0 :: r0 =>
    if b0 <? 128 then b0 :: utf8_decode r0
    else if b0 <? 224 then
      match r0 with
      | b1 :: r1 => (N.land b0 31 * 64 + cont b1) :: utf8_decode r1
      | _ => []
      end
    else if b0 <? 240 then
      match r0 with
      | b1 :: b2 :: r2 =>
        (N.land b0 15 * 4096 + cont b1 * 64 + cont b2) :: utf8_decode r2
      | _ => []
      end
    else
      match r0 with
      | b1 :: b2 :: b3 :: r3 =>
        (N.land b0 7 * 262144 + cont b1 * 4096 + cont b2 * 64 + cont b3)
          :: utf8_decode r3
      | _ => []
      end
  end.

(** A Python string literal, written as UTF-8 source text. *)
Definition str (s : string) : pystr :=
  utf8_decode (map N_of_ascii (list_ascii_of_string s)).

(** [str.isspace()] on one code point (CPython's [_PyUnicode_IsWhitespace]):
    the characters removed by [str.strip()] and separating [str.split()]. *)
Definition isspace (c : char) : bool :=
  ((9 <=? c) && (c <=? 13)) || ((28 <=? c) && (c <=? 32))
  || (c =? 133) || (c =? 160) || (c =? 5760)
  || ((8192 <=? c) && (c <=? 8202))
  || (c =? 8232) || (c =? 8233) || (c =? 8239) || (c =? 8287) || (c =? 12288).

(** [s.startswith(p)]. *)
Fixpoint startswith (p s : pystr) : bool :=
  match p, s with
  | [], _ => true
  | _ :: _, [] => false
  | a :: p', b :: s' => (a =? b) && startswith p' s'
  end.

(** [s.lstrip(chars)], for the set of characters satisfying [f]. *)
Fixpoint lstrip_by (f : char -> bool) (s : pystr) : pystr :=
  match s with
  | [] => []
  | c :: s' => if f c then lstrip_by f s' else s
  end.

(** [s.rstrip(chars)], for the set of characters satisfying [f]. *)
Fixpoint rstrip_by (f : char -> bool) (s : pystr) : pystr :=
  match s with
  | [] => []
  | c :: s' =>
    match rstrip_by f s' with
    | [] => if f c then [] else [c]
    | r => c :: r
    end
  end.

(** [s.strip()]: whitespace removed at both ends. *)
Definition strip (s : pystr) : pystr := rstrip_by isspace (lstrip_by isspace s).

(** [s.rstrip(c)] for a one-character argument: every trailing [c] goes. *)
Definition rstrip_char (c : char) (s : pystr) : pystr := rstrip_by (N.eqb c) s.

(** Puts [c] in front of the first piece. *)
Definition cons_head (c : char) (ps : list pystr) : list pystr :=
  match ps with
  | [] => [[c]]
  | p :: ps' => (c :: p) :: ps'
  end.

(** [s.split(sep)] for a one-character separator: one more piece than there
    are separators, empty pieces kept. *)
Fixpoint split (sep : char) (s : pystr) : list pystr :=
  match s with
  | [] => [[]]
  | c :: s' => if c =? sep then [] :: split sep s' else cons_head c (split sep s')
  end.

(** [s.split(sep, maxsplit=n)]: at most [n] cuts, from the left. *)
Fixpoint split_max (sep : char) (s : pystr) (n : nat) {struct s} : list pystr :=
  match s with
  | [] => [[]]
  | c :: s' =>
    match n with
    | O => [s]
    | S n' =>
      if c =? sep then [] :: split_max sep s' n'
      else cons_head c (split_max sep s' n)
    end
  end.

(** [s.split()]: the maximal runs of non-whitespace characters. *)
Fixpoint split_ws (s : pystr) : list pystr :=
  match s with
  | [] => []
  | c :: s' =>
    if isspace c then split_ws s'
    else
      match s' with
      | [] => [[c]]
      | d :: _ => if isspace d then [c] :: split_ws s' else cons_head c (split_ws s')
      end
  end.

(** ** Exceptions *)

Inductive exception :=
| ValueError_unpack (expected got : nat)
    (** [a, b = seq] with [len(seq) <> 2]: "not enough / too many values to unpack" *)
| ValueError_strptime
    (** raised by [datetime.strptime] on text that does not match the format *)
| ValueError (msg : string)
    (** [raise ValueError(msg)] *)
| IndexError.
    (** list index out of range *)

Inductive result (A : Type) :=
| Ok (a : A)
| Raise (e : exception).
Arguments Ok {A} a.
Arguments Raise {A} e.

(** Sequencing: an exception skips the rest of the block. *)
#[global] Instance result_bind : MBind result := fun A B k r =>
  match r with
  | Ok a => k a
  | Raise e => Raise e
  end.

(** [a, b = seq]: unpacking into exactly two targets. *)
Definition unpack2 {A} (seq : list A) : result (A * A) :=
  match seq with
  | [a; b] => Ok (a, b)
  | _ => Raise (ValueError_unpack 2 (length seq))
  end.

(** ** Entries *)

Record Entry := {
  traditional : pystr;
  simplified : pystr;
  pinyin : pystr;
  definitions : list pystr
}.

(** Lines 162-186 of [_parse_line]: the grammar of a dictionary line. *)
Definition parse_data_line (line : pystr) : result Entry :=
  let line := strip line in
  let line := rstrip_char (ord "/") line in
  '(chinese, english) ← unpack2 (split_max (ord "/") line 1);
  let chinese := strip chinese in
  '(traditional_and_simplified, pinyin) ← unpack2 (split (ord "[") chinese);
  let traditional_and_simplified := strip traditional_and_simplified in
  '(traditional, simplified) ← unpack2 (split_ws traditional_and_simplified);
  let pinyin := removelast pinyin in
  let senses := split (ord "/") english in
  let glosses := map (split (ord ";")) senses in
  let definitions := concat glosses in
  Ok {| traditional := traditional;
        simplified := simplified;
        pinyin := pinyin;
        definitions := definitions |}.


(** ** The Python datetime library

    [datetime.strptime(text, "%Y-%m-%dT%H:%M:%SZ")] either returns a
    [datetime] or raises [ValueError]; [(a - b).days] is the whole-day part of
    a difference. Both are library code: the development is parametric in
    them. *)
Class DatetimeLib := {
  datetime : Type;
  strptime : pystr -> option datetime;
  timedelta_days : datetime -> datetime -> Z
}.

(** Position [j] holds the last entry of [es] whose [key] is [k]. *)
Definition last_pos (key : Entry → pystr) (k : pystr) (es : list Entry) (j : nat)
  : Prop :=
  (∃ e, es !! j = Some e ∧ key e = k) ∧
  (∀ j' e', (j < j')%nat → es !! j' = Some e' → key e' ≠ k).

(** The index [m] maps every key present in [es] to its last position, and
    nothing else. *)
Definition index_ok (key : Entry → pystr) (m : gmap pystr nat) (es : list Entry)
  : Prop :=
  ∀ k, match m !! k with
       | Some j => last_pos key k es j
       | None => ∀ e, e ∈ es → key e ≠ k
       end.

Section Store.
Context `{DatetimeLib}.

(** ** The dictionary object

    The attributes of a [CcCedict] instance. [entries] and the two indexes
    are created by [_parse_file]; before that they are modelled as empty. *)
Record CcCedict := {
  _data_datetime : option datetime;
  entries : list Entry;
  simplified_to_index : gmap pystr nat;
  traditional_to_index : gmap pystr nat
}.

Definition DATE_TAG : pystr := str "#! date=".

(** [_parse_line]: returns the object after the call (only
    [_data_datetime] can change) and the returned value, [None] or an entry. *)
Definition _parse_line (self : CcCedict) (line : pystr)
  : result (CcCedict * option Entry) :=
  if startswith (str "#") line then
    if startswith DATE_TAG line then
      match strptime (strip (drop (length DATE_TAG) line)) with
      | Some d =>
        Ok ({| _data_datetime := Some d;
               entries := entries self;
               simplified_to_index := simplified_to_index self;
               traditional_to_index := traditional_to_index self |}, None)
      | None => Raise ValueError_strptime
      end
    else Ok (self, None)
  else
    entry ← parse_data_line line;
    Ok (self, Some entry).

(** The body of [for line in file] in [_parse_file], with the counter [i]. *)
Fixpoint parse_lines (self : CcCedict) (i : nat) (file : list pystr)
  : result CcCedict :=
  match file with
  | [] => Ok self
  | line :: file' =>
    '(self, entry) ← _parse_line self line;
    match entry with
    | None => parse_lines self i file'
    | Some entry =>
      let self :=
        {| _data_datetime := _data_datetime self;
           entries := entries self ++ [entry];
           simplified_to_index :=
             <[simplified entry := i]> (simplified_to_index self);
           traditional_to_index :=
             <[traditional entry := i]> (traditional_to_index self) |} in
      parse_lines self (S i) file'
    end
  end.

Definition _parse_file (self : CcCedict) (file : list pystr) : result CcCedict :=
  let self :=
    {| _data_datetime := _data_datetime self;
       entries := [];
       simplified_to_index := ∅;
       traditional_to_index := ∅ |} in
  parse_lines self 0 file.

(** [CcCedict()]: the constructor, on the decoded lines of the data file.
    An exception leaves the caller without an object. *)
Definition __init__ (file : list pystr) : result CcCedict :=
  let self :=
    {| _data_datetime := None;
       entries := [];
       simplified_to_index := ∅;
       traditional_to_index := ∅ |} in
  _parse_file self file.

Definition get_data_datetime (self : CcCedict) : option datetime :=
  _data_datetime self.

(** [get_data_days_old]; [current_date] is the value of [datetime.utcnow()].
    A [datetime] object is always true, so [not self._data_datetime] holds
    exactly for [None]. *)
Definition get_data_days_old (self : CcCedict) (current_date : datetime)
  : result Z :=
  match _data_datetime self with
  | None => Raise (ValueError "Data datetime is not set.")
  | Some d => Ok (timedelta_days current_date d)
  end.

(** [self.entries[i]] for a non-negative [i]. *)
Definition getitem {A} (l : list A) (i : nat) : result A :=
  match l !! i with
  | Some a => Ok a
  | None => Raise IndexError
  end.

Definition get_entry (self : CcCedict) (chinese : pystr) : result (option Entry) :=
  match simplified_to_index self !! chinese with
  | Some i => e ← getitem (entries self) i; Ok (Some e)
  | None =>
    match traditional_to_index self !! chinese with
    | Some i => e ← getitem (entries self) i; Ok (Some e)
    | None => Ok None
    end
  end.

Definition get_entries (self : CcCedict) : list Entry := entries self.

(** [_get_field]; the key [field] is one of the four projections. *)
Definition _get_field {A} (self : CcCedict) (field : Entry -> A) (chinese : pystr)
  : result (option A) :=
  entry ← get_entry self chinese;
  match entry with
  | None => Ok None
  | Some entry => Ok (Some (field entry))
  end.

Definition get_definitions self chinese := _get_field self definitions chinese.
Definition get_pinyin self chinese := _get_field self pinyin chinese.
Definition get_simplified self chinese := _get_field self simplified chinese.
Definition get_traditional self chinese := _get_field self traditional chinese.

(** The invariant of a built dictionary. *)
Definition store_ok (self : CcCedict) : Prop :=
  index_ok simplified (simplified_to_index self) (entries self) ∧
  index_ok traditional (traditional_to_index self) (entries self).

End Store.

(** ** A datetime instance for running the model

    Timestamps in the canonical zero-padded ASCII spelling
    [YYYY-MM-DDTHH:MM:SSZ], which CPython's [strptime] reads with the same
    field values (CPython accepts further spellings that this instance
    rejects). Day arithmetic follows the proleptic Gregorian ordinal of
    CPython's [datetime]. The theorems below hold for every [DatetimeLib];
    this one serves the concrete examples. *)
Module Iso.

Record t := {
  year : Z; month : Z; day : Z; hour : Z; minute : Z; second : Z
}.

Definition digit (c : char) : option Z :=
  if (48 <=? c) && (c <=? 57) then Some (Z.of_N c - 48)%Z else None.

Definition two (a b : char) : option Z :=
  x ← digit a; y ← digit b; Some (10 * x + y)%Z.

Definition is_leap (y : Z) : bool :=
  ((y mod 4 =? 0) && (negb (y mod 100 =? 0) || (y mod 400 =? 0)))%Z.

Definition days_in_month (y m : Z) : Z :=
  (if (m =? 2) then (if is_leap y then 29 else 28)
   else if (m =? 4) || (m =? 6) || (m =? 9) || (m =? 11) then 30 else 31)%Z.

Definition days_before_month (y m : Z) : Z :=
  (nth (Z.to_nat m) [0; 0; 31; 59; 90; 120; 151; 181; 212; 243; 273; 304; 334] 0
   + (if (2 <? m) && is_leap y then 1 else 0))%Z.

Definition ordinal (d : t) : Z :=
  (let y := year d - 1 in
   y * 365 + y / 4 - y / 100 + y / 400
   + days_before_month (year d) (month d) + day d)%Z.

Definition seconds (d : t) : Z :=
  (ordinal d * 86400 + hour d * 3600 + minute d * 60 + second d)%Z.

Definition in_range (lo x hi : Z) : bool := ((lo <=? x) && (x <=? hi))%Z.

Definition parse (s : pystr) : option t :=
  match s with
  | [y1; y2; y3; y4; 45; m1; m2; 45; d1; d2; 84; h1; h2; 58; n1; n2; 58; s1; s2; 90] =>
    yh ← two y1 y2; yl ← two y3 y4;
    mo ← two m1 m2; dd ← two d1 d2;
    hh ← two h1 h2; mi ← two n1 n2; ss ← two s1 s2;
    let yy := (100 * yh + yl)%Z in
    if in_range 1 yy 9999 && in_range 1 mo 12
       && in_range 1 dd (days_in_month yy mo)
       && in_range 0 hh 23 && in_range 0 mi 59 && in_range 0 ss 59
    then Some {| year := yy; month := mo; day := dd;
                 hour := hh; minute := mi; second := ss |}
    else None
  | _ => None
  end.

Definition days (a b : t) : Z := ((seconds a - seconds b) / 86400)%Z.

#[global] Instance lib : DatetimeLib :=
  {| datetime := t; strptime := parse; timedelta_days := days |}.

End Iso.

Local Close Scope N_scope.

(** ** Vocabulary of the statements *)

(** The text of a dictionary line after lines 163-164. *)
Definition normalised (line : pystr) : pystr :=
  rstrip_char (ord "/") (strip line).

(** The text before the first [/], stripped (line 168). *)
Definition chinese_part (line : pystr) : pystr :=
  strip (hd [] (split_max (ord "/") (normalised line) 1)).

(** The text before the first [[] of the chinese part, stripped (line 170),
    and its whitespace-separated tokens (line 171). *)
Definition headword_segment (line : pystr) : pystr :=
  strip (hd [] (split (ord "[") (chinese_part line))).

Definition headword_tokens (line : pystr) : list pystr :=
  split_ws (headword_segment line).

(** Lines 177-179: the glosses of all senses, in order. *)
Definition flat_glosses (english : pystr) : list pystr :=
  concat (map (split (ord ";")) (split (ord "/") english)).

(** A line made of whitespace only, or empty. *)
Definition isblank (line : pystr) : bool := forallb isspace line.

(** [line] is a dictionary line that parses to [e]. *)
Definition parses_to (line : pystr) (e : Entry) : Prop :=
  startswith (str "#") line = false ∧ parse_data_line line = Ok e.


(** ** Example inputs *)

(** The object before [_parse_file] has run. *)
Definition blank_self : @CcCedict Iso.lib :=
  {| _data_datetime := None;
     entries := [];
     simplified_to_index := ∅;
     traditional_to_index := ∅ |}.

(** Two lines: [H] is the traditional form of the first entry and the
    simplified form of the second. *)
Definition collision_file : list pystr :=
  [str "H S [x] /first/"; str "T H [y] /second/"].

Definition collision_X : Entry :=
  {| traditional := str "H"; simplified := str "S"; pinyin := str "x";
     definitions := [str "first"] |}.

Definition collision_Y : Entry :=
  {| traditional := str "T"; simplified := str "H"; pinyin := str "y";
     definitions := [str "second"] |}.

(** Two lines with the same simplified form and different traditional forms. *)
Definition hou_1 : pystr := str "後 后 [hou4] /back/behind/".
Definition hou_2 : pystr := str "后 后 [hou4] /empress/queen/".

Definition hou_entry_1 : Entry :=
  {| traditional := str "後"; simplified := str "后"; pinyin := str "hou4";
     definitions := [str "back"; str "behind"] |}.

Definition hou_entry_2 : Entry :=
  {| traditional := str "后"; simplified := str "后"; pinyin := str "hou4";
     definitions := [str "empress"; str "queen"] |}.

(** A file without a date line. *)
Definition undated_file : list pystr :=
  [str "# CC-CEDICT"; str "#! version=1"; str "愛 爱 [ai4] /love/affection/"].

(** The line of the round-trip example. *)
Definition ai_line : pystr := str "愛 爱 [ai4] /love/affection/".

Definition ai_entry : Entry :=
  {| traditional := str "愛"; simplified := str "爱"; pinyin := str "ai4";
     definitions := [str "love"; str "affection"] |}.

(** A line whose senses hold three glosses. *)
Definition love_line : pystr := str "愛 爱 [ai4] /to love/to be fond of;to cherish/".

(** A line ending in two slashes. *)
Definition double_slash_line : pystr := str "A B [x] /d//".

(** A line whose pinyin segment has no closing bracket. *)
Definition bracketless_line : pystr := str "A B [ai4 /love/".

(** A line that begins with a space and then [#]. *)
Definition indented_hash_line : pystr := str " #A B [x] /d/".

(** Two blank lines: the empty string, and space, tab, newline. *)
Definition empty_line : pystr := str "".
Definition spaces_line : pystr := [32; 9; 10]%N.

(** A good line followed by a line without [/]; a file with a line of three
    headword tokens. *)
Definition no_slash_file : list pystr := [ai_line; str "no slash here"].
Definition three_token_file : list pystr := [str "A B C [x] /d/"].

(** ** Vocabulary for the properties of the whole file *)

(** The lines that [_parse_line] hands to the dictionary-line grammar: those
    that do not start with [#]. *)
Definition data_lines (file : list pystr) : list pystr :=
  filter (λ line, startswith (str "#") line = false) file.

(** A comment line that is not a date line: [_parse_line] returns [None] and
    writes nothing. *)
Definition plain_comment (line : pystr) : bool :=
  startswith (str "#") line && negb (startswith DATE_TAG line).

(** [sep.join(parts)]. *)
Fixpoint join (sep : pystr) (parts : list pystr) : pystr :=
  match parts with
  | [] => []
  | [p] => p
  | p :: ps => p ++ sep ++ join sep ps
  end.

(** The number of occurrences of [c] in [s]: [s.count(c)]. *)
Definition count (c : N) (s : pystr) : nat := length (filter (λ x, x = c) s).

(** The line layout that [_parse_line] reads,
    [traditional simplified [pinyin] /definition/.../definition/],
    written out for an entry. *)
Definition entry_line (e : Entry) : pystr :=
  traditional e ++ str " " ++ simplified e ++ str " [" ++ pinyin e ++ str "] /"
    ++ join (str "/") (definitions e) ++ str "/".

(** A string usable as a headword: not empty, no whitespace, and none of the
    characters [/] and [[] that cut the line. *)
Definition headword_ok (w : pystr) : Prop :=
  w ≠ [] ∧ (∀ c, c ∈ w → isspace c = false) ∧
  (ord "/" ∉ w) ∧ (ord "[" ∉ w).

(** An entry that can be written as a line and read back: headwords as
    above, the traditional form not starting with [#], a pinyin without [/]
    and [[], definitions without [/] and [;], and a last definition that is
    not empty. *)
Definition entry_ok (e : Entry) : Prop :=
  headword_ok (traditional e) ∧ headword_ok (simplified e) ∧
  startswith (str "#") (traditional e) = false ∧
  (ord "/" ∉ pinyin e) ∧ (ord "[" ∉ pinyin e) ∧
  (∀ d, d ∈ definitions e → (ord "/" ∉ d) ∧ (ord ";" ∉ d)) ∧
  (∃ d, last (definitions e) = Some d ∧ d ≠ []).

(** The same conditions as a test that can be run on a given entry. *)
Definition headword_okb (w : pystr) : bool :=
  match w with
  | [] => false
  | _ => forallb (λ c, negb (isspace c) && negb (c =? ord "/")%N
                       && negb (c =? ord "[")%N) w
  end.

Definition entry_okb (e : Entry) : bool :=
  headword_okb (traditional e) && headword_okb (simplified e)
  && negb (startswith (str "#") (traditional e))
  && forallb (λ c, negb (c =? ord "/")%N && negb (c =? ord "[")%N) (pinyin e)
  && forallb (forallb (λ c, negb (c =? ord "/")%N && negb (c =? ord ";")%N))
             (definitions e)
  && match last (definitions e) with
     | Some (_ :: _) => true
     | _ => false
     end.

Section DateLines.
Context `{DatetimeLib}.

(** The timestamp that a line assigns to [self._data_datetime], if it is a
    date line whose text [strptime] accepts. *)
Definition date_line_value (line : pystr) : option datetime :=
  if startswith DATE_TAG line
  then strptime (strip (drop (length DATE_TAG) line))
  else None.

End DateLines.

(** A file with two date lines around an entry, and the same file with a
    newline at the end of every line. *)
Definition dated_file : list pystr :=
  [str "#! date=2024-11-18T23:06:27Z"; str "愛 爱 [ai4] /love/affection/";
   str "#! date=2025-01-02T03:04:05Z"].

Definition dated_file_nl : list pystr :=
  [str "#! date=2024-11-18T23:06:27Z" ++ [10%N];
   str "愛 爱 [ai4] /love/affection/" ++ [10%N];
   str "#! date=2025-01-02T03:04:05Z" ++ [10%N]].

(** A date line whose text is not a timestamp. *)
Definition bad_date_file : list pystr :=
  [str "愛 爱 [ai4] /love/affection/"; str "#! date=yesterday";
   str "no slash here"].

(** An entry reachable only through its traditional form. *)
Definition fallback_file : list pystr :=
  [str "後 后 [hou4] /back/behind/"; str "愛 爱 [ai4] /love/affection/"].

(** A current date for the examples. *)
Definition example_now : Iso.t :=
  {| Iso.year := 2025; Iso.month := 1; Iso.day := 12;
     Iso.hour := 3; Iso.minute := 4; Iso.second := 5 |}.

(** ** Proof steps for the examples *)

(** A character is not in a concatenation of pieces that do not hold it. *)
Ltac notin_pieces :=
  repeat first
    [ assumption
    | apply not_elem_of_app; split
    | let Hc := fresh in
      intros Hc; apply list_elem_of_singleton in Hc; vm_compute in Hc;
      discriminate Hc ].

(** The constructor returns on [file]: names the object [store]. *)
Ltac built file store E :=
  let Hb := fresh in
  assert (Hb : (s ← __init__ file; Ok tt) = Ok tt) by (by vm_compute);
  destruct (__init__ file) as [store|?] eqn:E; [clear Hb|discriminate Hb].

(** The same, with the entry list [es] of the object. *)
Ltac built_entries file store E es Hes :=
  assert (Hes : (s ← __init__ file; Ok (get_entries s)) = Ok es)
    by (by vm_compute);
  destruct (__init__ file) as [store|?] eqn:E; [|discriminate Hes];
  simpl in Hes; injection Hes as Hes.

(** The constructor raises [err] on [file]. *)
Ltac failed file err E :=
  let Hb := fresh in
  assert (Hb : (s ← __init__ file; Ok tt) = Raise err) by (by vm_compute);
  destruct (__init__ file) as [?|?] eqn:E; [discriminate Hb|];
  simpl in Hb; injection Hb as ->.

(** ** Facts about the string operations *)

Section StringFacts.
Implicit Types (s t : list N) (c sep : N) (f : N → bool).

Lemma startswith_hash s :
  startswith (str "#") s = true ↔ ∃ rest, s = ord "#" :: rest.
Proof.
  change (str "#") with [ord "#"]. destruct s as [|c s].
  - split; [done|]. by intros [? ?].
  - change (startswith [ord "#"] (c :: s)) with ((ord "#" =? c)%N && true).
    rewrite andb_true_r, N.eqb_eq. split.
    + intros Hc. exists s. by subst c.
    + intros [rest Hrest]. by injection Hrest.
Qed.

Lemma lstrip_by_all f s : forallb f s = true → lstrip_by f s = [].
Proof.
  induction s as [|c s IH]; simpl; [done|].
  intros [Hc Hs]%andb_true_iff. rewrite Hc. auto.
Qed.

Lemma rstrip_by_all f s : forallb f s = true → rstrip_by f s = [].
Proof.
  induction s as [|c s IH]; simpl; [done|].
  intros [Hc Hs]%andb_true_iff. by rewrite IH, Hc.
Qed.

(** Stripping cuts a prefix, resp. a suffix, made of stripped characters. *)
Lemma lstrip_by_split f s :
  ∃ p, s = p ++ lstrip_by f s ∧ forallb f p = true.
Proof.
  induction s as [|c s (p & Hp & Hall)]; simpl; [by exists []|].
  destruct (f c) eqn:Hc; [|by exists []].
  exists (c :: p). simpl. rewrite Hc, Hall. by rewrite <- Hp.
Qed.

Lemma rstrip_by_split f s :
  ∃ q, s = rstrip_by f s ++ q ∧ forallb f q = true.
Proof.
  induction s as [|c s (q & Hq & Hall)]; simpl; [by exists []|].
  destruct (rstrip_by f s) as [|d r] eqn:Hr.
  - simpl in Hq. subst q. destruct (f c) eqn:Hc.
    + exists (c :: s). simpl. by rewrite Hc, Hall.
    + by exists s.
  - exists q. split; [|done]. simpl. by rewrite Hq at 1.
Qed.

(** What is left after [rstrip] does not end in a stripped character. *)
Lemma rstrip_by_last f s c : last (rstrip_by f s) = Some c → f c = false.
Proof.
  revert c. induction s as [|d s IH]; intros c; cbn [rstrip_by]; [done|].
  destruct (rstrip_by f s) as [|e r] eqn:Hr.
  - destruct (f d) eqn:Hd; [done|]. rewrite last_singleton. by intros [= <-].
  - rewrite last_cons_cons. apply IH.
Qed.

(** [rstrip] changes nothing exactly when the last character stays. *)
Lemma rstrip_by_id f s :
  rstrip_by f s = s ↔ ∀ c, last s = Some c → f c = false.
Proof.
  split.
  - intros Hs c Hc. rewrite <- Hs in Hc. by eapply rstrip_by_last.
  - induction s as [|d s IH]; cbn [rstrip_by]; [done|]. intros Hlast.
    destruct s as [|e r].
    + cbn [rstrip_by]. by rewrite (Hlast d).
    + rewrite IH; [done|]. intros c Hc. apply Hlast.
      by rewrite last_cons_cons.
Qed.

Lemma rstrip_by_app_all f s t :
  forallb f t = true → rstrip_by f (s ++ t) = rstrip_by f s.
Proof.
  intros Ht. induction s as [|c s IH]; simpl.
  - by apply rstrip_by_all.
  - by rewrite IH.
Qed.

(** Text that starts and ends with a kept character is left alone. *)
Lemma lstrip_by_cons_id f c s : f c = false → lstrip_by f (c :: s) = c :: s.
Proof. simpl. by intros ->. Qed.

Lemma lstrip_by_app_all f p s :
  forallb f p = true → lstrip_by f (p ++ s) = lstrip_by f s.
Proof.
  induction p as [|c p IH]; simpl; [done|].
  intros [Hc Hp]%andb_true_iff. rewrite Hc. auto.
Qed.

Lemma strip_blank s : forallb isspace s = true → strip s = [].
Proof. intros Hs. unfold strip. by rewrite lstrip_by_all. Qed.

(** Stripping removes characters, it adds none. *)
Lemma lstrip_by_elem f s c : c ∈ lstrip_by f s → c ∈ s.
Proof.
  destruct (lstrip_by_split f s) as (p & Hp & _). intros Hc.
  rewrite Hp. apply elem_of_app. by right.
Qed.

Lemma rstrip_by_elem f s c : c ∈ rstrip_by f s → c ∈ s.
Proof.
  destruct (rstrip_by_split f s) as (q & Hq & _). intros Hc.
  rewrite Hq. apply elem_of_app. by left.
Qed.

Lemma strip_elem s c : c ∈ strip s → c ∈ s.
Proof. intros Hc. by eapply lstrip_by_elem, rstrip_by_elem. Qed.

(** Splitting text that has no separator gives the text back, alone. *)
Lemma split_max_notin sep s n : sep ∉ s → split_max sep s n = [s].
Proof.
  revert n. induction s as [|c s IH]; intros n Hs; simpl; [done|].
  destruct n as [|n]; [done|].
  apply not_elem_of_cons in Hs as [Hc Hs].
  destruct (N.eqb_spec c sep) as [->|_]; [done|]. by rewrite IH.
Qed.

Lemma split_notin sep s : sep ∉ s → split sep s = [s].
Proof.
  induction s as [|c s IH]; intros Hs; simpl; [done|].
  apply not_elem_of_cons in Hs as [Hc Hs].
  destruct (N.eqb_spec c sep) as [->|_]; [done|]. by rewrite IH.
Qed.

(** A first cut is made at the first separator. *)
Lemma split_max_app sep a b n :
  sep ∉ a → split_max sep (a ++ sep :: b) (S n) = a :: split_max sep b n.
Proof.
  induction a as [|c a IH]; intros Ha; simpl.
  - by rewrite N.eqb_refl.
  - apply not_elem_of_cons in Ha as [Hc Ha].
    destruct (N.eqb_spec c sep) as [->|_]; [done|]. by rewrite IH.
Qed.

Lemma split_max_0 sep s : split_max sep s 0 = [s].
Proof. by destruct s. Qed.

Lemma split_app sep a b :
  sep ∉ a → split sep (a ++ sep :: b) = a :: split sep b.
Proof.
  induction a as [|c a IH]; intros Ha; simpl.
  - by rewrite N.eqb_refl.
  - apply not_elem_of_cons in Ha as [Hc Ha].
    destruct (N.eqb_spec c sep) as [->|_]; [done|]. by rewrite IH.
Qed.

(** With at most one cut there are one or two pieces; two pieces are the
    text before and after the first separator. *)
Lemma split_max_1_shape sep s :
  ((sep ∉ s) ∧ split_max sep s 1 = [s]) ∨
  (∃ a b, s = a ++ sep :: b ∧ (sep ∉ a) ∧ split_max sep s 1 = [a; b]).
Proof.
  induction s as [|c s IH]; simpl.
  - left. split; [|done]. apply not_elem_of_nil.
  - destruct (N.eqb_spec c sep) as [->|Hne].
    + right. exists [], s. rewrite split_max_0. split_and!; [done| |done].
      apply not_elem_of_nil.
    + destruct IH as [[Hs ->]|(a & b & -> & Ha & ->)].
      * left. split; [|done]. by apply not_elem_of_cons.
      * right. exists (c :: a), b. split_and!; [done| |done].
        by apply not_elem_of_cons.
Qed.

(** The first character left by [lstrip] is a kept one. *)
Lemma lstrip_by_head f s c : head (lstrip_by f s) = Some c → f c = false.
Proof.
  induction s as [|d s IH]; simpl; [done|].
  destruct (f d) eqn:Hd; [done|]. simpl. by intros [= <-].
Qed.

(** Text appended after a kept character survives [lstrip]. *)
Lemma lstrip_by_app_keep f s t :
  (∀ c, head t = Some c → f c = false) →
  lstrip_by f (s ++ t) = lstrip_by f s ++ t.
Proof.
  intros Ht. induction s as [|c s IH]; simpl.
  - destruct t as [|c t]; [done|]. simpl. by rewrite (Ht c).
  - by destruct (f c).
Qed.

(** Trailing whitespace does not change what [strip] returns. *)
Lemma strip_app_blank s ws : forallb isspace ws = true → strip (s ++ ws) = strip s.
Proof.
  intros Hws. unfold strip.
  destruct (lstrip_by_split isspace s) as (p & Hp & Hall).
  rewrite Hp at 1. rewrite <- app_assoc, lstrip_by_app_all by done.
  destruct (lstrip_by isspace s) as [|c r] eqn:Hl.
  - simpl. by rewrite lstrip_by_all.
  - assert (isspace c = false) as Hc by (apply (lstrip_by_head isspace s); by rewrite Hl).
    change ((c :: r) ++ ws) with (c :: (r ++ ws)).
    rewrite lstrip_by_cons_id by done.
    change (c :: (r ++ ws)) with ((c :: r) ++ ws).
    by rewrite rstrip_by_app_all.
Qed.

(** Leading whitespace does not change what [strip] returns. *)
Lemma strip_blank_app ws s : forallb isspace ws = true → strip (ws ++ s) = strip s.
Proof. intros Hws. unfold strip. by rewrite lstrip_by_app_all. Qed.

(** The last piece of a split is empty only if the text is empty or ends in
    the separator. *)
Lemma split_last sep s c :
  last s = Some c → c ≠ sep → ∃ p, last (split sep s) = Some p ∧ p ≠ [].
Proof.
  revert c. induction s as [|d s IH]; intros c Hc Hne; [done|].
  cbn [split]. destruct s as [|e r].
  - rewrite last_singleton in Hc. injection Hc as ->. cbn [split].
    destruct (N.eqb_spec c sep) as [->|_]; [done|]. by exists [c].
  - rewrite last_cons_cons in Hc. destruct (IH c Hc Hne) as (p & Hp & Hpne).
    destruct (d =? sep)%N.
    + exists p. split; [|done].
      destruct (split sep (e :: r)) as [|q qs] eqn:Hq; [done|].
      by rewrite last_cons_cons.
    + destruct (split sep (e :: r)) as [|q [|q' qs]] eqn:Hq; [done| |].
      * rewrite last_singleton in Hp. injection Hp as <-. by exists (d :: q).
      * exists p. split; [|done]. cbn [cons_head]. by rewrite last_cons_cons in *.
Qed.

End StringFacts.

(** ** Facts about the line grammar *)

Lemma unpack2_pair {A} (l : list A) a b : unpack2 l = Ok (a, b) ↔ l = [a; b].
Proof.
  destruct l as [|x [|y [|z l]]]; simpl; split; try done.
  - by intros [= -> ->].
  - by intros [= -> ->].
Qed.

Lemma unpack2_raise {A} (l : list A) e :
  unpack2 l = Raise e ↔ e = ValueError_unpack 2 (length l) ∧ length l ≠ 2.
Proof.
  destruct l as [|x [|y [|z l]]]; simpl; split;
    try (intros [= <-]; split; [done|lia]); try (by intros [-> _]); try done.
  by intros [_ ?].
Qed.

(** The three unpackings decide the outcome: when each gets two values the
    line parses, and to the entry made of those values. *)
Lemma parse_data_line_steps line chinese english hw seg t s :
  split_max (ord "/") (normalised line) 1 = [chinese; english] →
  split (ord "[") (strip chinese) = [hw; seg] →
  split_ws (strip hw) = [t; s] →
  parse_data_line line =
    Ok {| traditional := t; simplified := s; pinyin := removelast seg;
          definitions := flat_glosses english |}.
Proof.
  unfold parse_data_line, normalised. intros -> . simpl. intros ->. simpl.
  by intros ->.
Qed.

Lemma parse_data_line_inv line e :
  parse_data_line line = Ok e →
  ∃ chinese english hw seg t s,
    split_max (ord "/") (normalised line) 1 = [chinese; english] ∧
    split (ord "[") (strip chinese) = [hw; seg] ∧
    split_ws (strip hw) = [t; s] ∧
    e = {| traditional := t; simplified := s; pinyin := removelast seg;
           definitions := flat_glosses english |}.
Proof.
  unfold parse_data_line, normalised.
  destruct (split_max _ _ 1) as [|chinese [|english [|]]] eqn:E1; simpl; try done.
  destruct (split _ (strip chinese)) as [|hw [|seg [|]]] eqn:E2; simpl; try done.
  destruct (split_ws (strip hw)) as [|t [|s [|]]] eqn:E3; simpl; try done.
  intros [= <-]. by exists chinese, english, hw, seg, t, s.
Qed.

(** A dictionary line fails only in an unpacking. *)
Lemma parse_data_line_raise line err :
  parse_data_line line = Raise err → ∃ n, err = ValueError_unpack 2 n ∧ n ≠ 2.
Proof.
  unfold parse_data_line.
  destruct (unpack2 (split_max _ _ 1)) as [[chinese english]|e1] eqn:E1; simpl.
  2: { intros [= <-]. apply unpack2_raise in E1 as [-> ?]. eauto. }
  destruct (unpack2 (split _ (strip chinese))) as [[hw seg]|e2] eqn:E2; simpl.
  2: { intros [= <-]. apply unpack2_raise in E2 as [-> ?]. eauto. }
  destruct (unpack2 (split_ws (strip hw))) as [[t s]|e3] eqn:E3; simpl; [done|].
  intros [= <-]. apply unpack2_raise in E3 as [-> ?]. eauto.
Qed.

(** Without a [/] the first unpacking gets one value. *)
Lemma parse_data_line_no_slash line :
  ord "/" ∉ line → parse_data_line line = Raise (ValueError_unpack 2 1).
Proof.
  intros Hno. unfold parse_data_line.
  rewrite split_max_notin; [done|].
  intros Hin. by apply rstrip_by_elem, strip_elem in Hin.
Qed.

Lemma parse_data_line_blank line :
  isblank line = true → parse_data_line line = Raise (ValueError_unpack 2 1).
Proof. intros Hb. unfold parse_data_line. by rewrite strip_blank. Qed.

Lemma blank_not_comment line :
  isblank line = true → startswith (str "#") line = false.
Proof.
  intros Hb. destruct (startswith (str "#") line) eqn:Hs; [|done].
  apply startswith_hash in Hs as [rest ->]. done.
Qed.

(** With a number of headword tokens other than two, one of the three
    unpackings fails. *)
Lemma parse_data_line_tokens line :
  length (headword_tokens line) ≠ 2 → ∃ e, parse_data_line line = Raise e.
Proof.
  unfold headword_tokens, headword_segment, chinese_part, parse_data_line, normalised.
  destruct (split_max _ _ 1) as [|chinese [|english [|]]]; simpl; eauto.
  destruct (split _ (strip chinese)) as [|hw [|seg [|]]]; simpl; eauto.
  destruct (split_ws (strip hw)) as [|t [|s [|]]]; simpl; eauto.
  by intros [].
Qed.

(** Trailing slashes, and whitespace after them, are all dropped. *)
Lemma normalised_app_slashes line k ws :
  rstrip_by isspace line = line → forallb isspace ws = true →
  normalised (line ++ replicate k (ord "/") ++ ws) = normalised line.
Proof.
  intros Hline Hws. unfold normalised.
  rewrite app_assoc, strip_app_blank by done.
  assert (forallb (N.eqb (ord "/")) (replicate k (ord "/")) = true) as Hsl.
  { induction k as [|k IH]; [done|]. simpl replicate. simpl forallb.
    by rewrite IH. }
  destruct (lstrip_by_split isspace line) as (p & Hp & Hall).
  assert (rstrip_by isspace (lstrip_by isspace line) = lstrip_by isspace line) as Hfix.
  { apply rstrip_by_id. intros c Hc. apply (proj1 (rstrip_by_id isspace line) Hline).
    rewrite Hp, last_app. by rewrite Hc. }
  destruct k as [|k].
  { simpl. by rewrite app_nil_r. }
  unfold strip at 1. rewrite lstrip_by_app_keep.
  2: { simpl. by intros c [= <-]. }
  rewrite (proj2 (rstrip_by_id isspace _)).
  2: { intros c. rewrite last_app.
       assert (last (replicate (S k) (ord "/")) = Some (ord "/")) as ->.
       { rewrite <- (reverse_replicate (S k)). rewrite last_reverse. done. }
       by intros [= <-]. }
  unfold rstrip_char. rewrite rstrip_by_app_all by done.
  unfold strip. by rewrite Hfix.
Qed.

(** After lines 163-164 the text does not end in a slash. *)
Lemma normalised_last line : last (normalised line) ≠ Some (ord "/").
Proof.
  intros Hl. apply rstrip_by_last in Hl. by rewrite N.eqb_refl in Hl.
Qed.

(** The text after the first [/] is not empty and does not end in [/]. *)
Lemma english_last line chinese english :
  split_max (ord "/") (normalised line) 1 = [chinese; english] →
  ∃ c, last english = Some c ∧ c ≠ ord "/".
Proof.
  intros Hsplit. pose proof (normalised_last line) as Hlast.
  destruct (split_max_1_shape (ord "/") (normalised line))
    as [[_ Hone]|(a & b & Hab & _ & Htwo)]; [congruence|].
  rewrite Htwo in Hsplit. injection Hsplit as -> ->.
  rewrite Hab, last_app_cons in Hlast.
  destruct english as [|d r]; [done|].
  rewrite last_cons_cons in Hlast.
  destruct (last (d :: r)) as [c|] eqn:Hc; [|by apply last_None in Hc].
  exists c. split; [done|]. congruence.
Qed.

(** A line that does not start with [#] is still none after slashes and
    whitespace are appended. *)
Lemma startswith_hash_app line k ws :
  startswith (str "#") line = false → forallb isspace ws = true →
  startswith (str "#") (line ++ replicate k (ord "/") ++ ws) = false.
Proof.
  intros Hline Hws.
  destruct (startswith (str "#") (line ++ _)) eqn:Hs; [|done].
  apply startswith_hash in Hs as [rest Hrest].
  destruct line as [|c line].
  - destruct k as [|k]; simpl in Hrest; [|done].
    subst ws. done.
  - injection Hrest as -> _.
    assert (startswith (str "#") (ord "#" :: line) = true) as Ht
      by (apply startswith_hash; eauto).
    congruence.
Qed.

(** ** Facts about the end of a dictionary line *)

Lemma rstrip_by_idem f s : rstrip_by f (rstrip_by f s) = rstrip_by f s.
Proof. apply rstrip_by_id. intros c Hc. by eapply rstrip_by_last. Qed.

(** What [rstrip] removes is made of stripped characters only: for a single
    character, a run of that character. *)
Lemma rstrip_char_run c s :
  ∃ n, s = rstrip_char c s ++ replicate n c.
Proof.
  unfold rstrip_char. destruct (rstrip_by_split (N.eqb c) s) as (q & Hq & Hall).
  exists (length q). rewrite Hq at 1. f_equal. clear Hq.
  induction q as [|d q IH]; [done|]. cbn [forallb] in Hall.
  apply andb_true_iff in Hall as [Hd Hall]. apply N.eqb_eq in Hd as <-.
  cbn [length replicate]. f_equal. by apply IH.
Qed.

(** Whitespace at the end of the line is gone before the slashes are looked
    at. *)
Lemma normalised_rstrip line : normalised (rstrip_by isspace line) = normalised line.
Proof.
  unfold normalised. destruct (rstrip_by_split isspace line) as (q & Hq & Hall).
  rewrite Hq at 2. by rewrite strip_app_blank.
Qed.

Lemma startswith_hash_rstrip line :
  startswith (str "#") line = false →
  startswith (str "#") (rstrip_by isspace line) = false.
Proof.
  intros Hline. destruct (startswith (str "#") (rstrip_by isspace line)) eqn:Hs; [|done].
  apply startswith_hash in Hs as [rest Hrest].
  destruct (rstrip_by_split isspace line) as (q & Hq & _).
  rewrite Hrest in Hq. rewrite <- Hline. symmetry. apply startswith_hash.
  exists (rest ++ q). by rewrite Hq.
Qed.

Lemma split_not_nil sep s : split sep s ≠ [].
Proof.
  induction s as [|c s IH]; [done|]. cbn [split].
  destruct (c =? sep)%N; [done|]. by destruct (split sep s).
Qed.

(** The last piece of a split ends as the text ends, unless the text ends in
    the separator. *)
Lemma split_last_char sep s c :
  last s = Some c → c ≠ sep →
  ∃ p, last (split sep s) = Some p ∧ last p = Some c.
Proof.
  induction s as [|d s IH]; intros Hc Hne; [done|].
  cbn [split]. destruct s as [|e r].
  - rewrite last_singleton in Hc. injection Hc as ->. cbn [split].
    destruct (N.eqb_spec c sep) as [->|_]; [done|]. by exists [c].
  - rewrite last_cons_cons in Hc. destruct (IH Hc Hne) as (p & Hp & Hpc).
    destruct (d =? sep)%N.
    + exists p. split; [|done].
      destruct (split sep (e :: r)) as [|q qs] eqn:Hq; [done|].
      by rewrite last_cons_cons.
    + destruct (split sep (e :: r)) as [|q [|q' qs]] eqn:Hq; [done| |].
      * rewrite last_singleton in Hp. injection Hp as <-. exists (d :: q).
        split; [done|]. destruct q as [|x q]; [done|]. by rewrite last_cons_cons.
      * exists p. split; [|done]. cbn [cons_head]. by rewrite last_cons_cons in *.
Qed.

(** The last gloss of all is the last gloss of the last sense. *)
Lemma last_concat_map {A B} (f : A → list B) l x :
  last l = Some x → f x ≠ [] → last (concat (map f l)) = last (f x).
Proof.
  intros [l' ->]%last_Some Hne. rewrite map_app, concat_app. cbn [map concat].
  rewrite app_nil_r, last_app.
  destruct (last (f x)) eqn:Hl; [done|]. by apply last_None in Hl.
Qed.

(** The last definition of a dictionary line is empty only when the text
    after the first [/] ends in [;]. *)
Lemma last_gloss english c :
  last english = Some c → c ≠ ord "/" →
  ∃ d, last (flat_glosses english) = Some d ∧ (d = [] → c = ord ";").
Proof.
  intros Hc Hne. unfold flat_glosses.
  destruct (split_last_char (ord "/") english c Hc Hne) as (sense & Hsense & Hsc).
  rewrite (last_concat_map _ _ sense) by (done || apply split_not_nil).
  destruct (decide (c = ord ";")) as [->|Hsemi].
  - destruct (last (split (ord ";") sense)) as [d|] eqn:Hl.
    + by exists d.
    + apply last_None in Hl. by apply split_not_nil in Hl.
  - destruct (split_last (ord ";") sense c Hsc Hsemi) as (d & Hd & Hdne).
    by exists d.
Qed.
(** ** Facts about the build loop *)

Section StoreFacts.
Context `{DatetimeLib}.

Lemma index_ok_empty key : index_ok key ∅ [].
Proof. intros k. rewrite lookup_empty. intros e He. inversion He. Qed.

Lemma index_ok_snoc key m es e :
  index_ok key m es →
  index_ok key (<[key e := length es]> m) (es ++ [e]).
Proof.
  intros Hm k. destruct (decide (key e = k)) as [<-|Hne].
  - rewrite lookup_insert_eq. split.
    + exists e. split; [|done].
      rewrite lookup_app_r by reflexivity. by rewrite Nat.sub_diag.
    + intros j' e' Hlt Hj'. apply lookup_lt_Some in Hj'.
      rewrite length_app in Hj'. simpl in Hj'. lia.
  - rewrite lookup_insert_ne by done. specialize (Hm k).
    destruct (m !! k) as [j|].
    + destruct Hm as [(e0 & He0 & Hk) Hlast]. split.
      * exists e0. split; [|done]. by apply lookup_app_l_Some.
      * intros j' e' Hlt Hj'. apply lookup_app_Some in Hj' as [Hj'|[_ Hj']].
        -- by eapply Hlast.
        -- apply list_lookup_singleton_Some in Hj' as [_ <-]. done.
    + intros e' [He'|He']%elem_of_app; [by apply Hm|].
      apply list_elem_of_singleton in He' as ->. done.
Qed.

(** A line either leaves the object alone or only sets the timestamp. *)
Lemma parse_line_frame self line self' r :
  _parse_line self line = Ok (self', r) →
  entries self' = entries self ∧
  simplified_to_index self' = simplified_to_index self ∧
  traditional_to_index self' = traditional_to_index self.
Proof.
  unfold _parse_line. destruct (startswith (str "#") line).
  - destruct (startswith DATE_TAG line); [|by intros [= <- <-]].
    destruct (strptime _); [|done]. by intros [= <- <-].
  - destruct (parse_data_line line); simpl; [|done]. by intros [= <- <-].
Qed.

(** What a line returns does not depend on the object it is called on. *)
Lemma parse_line_entry self line self' e :
  _parse_line self line = Ok (self', Some e) ↔ self' = self ∧ parses_to line e.
Proof.
  unfold _parse_line, parses_to. destruct (startswith (str "#") line).
  - split; [|by intros [_ [? _]]].
    destruct (startswith DATE_TAG line); [|done]. by destruct (strptime _).
  - destruct (parse_data_line line); simpl; split.
    + by intros [= <- <-].
    + by intros [-> [_ [= ->]]].
    + done.
    + by intros [_ [_ ?]].
Qed.

Lemma parse_lines_store_ok file : ∀ self i store,
  store_ok self → i = length (entries self) →
  parse_lines self i file = Ok store → store_ok store.
Proof.
  induction file as [|line file IH]; intros self i store Hok Hi; simpl.
  - by intros [= <-].
  - destruct (_parse_line self line) as [[self' [e|]]|] eqn:Hline; simpl; [| |done].
    + apply parse_line_frame in Hline as (He & Hs & Ht).
      apply IH; simpl; [|rewrite length_app, He; simpl; lia].
      destruct Hok as [Hoks Hokt]. rewrite He, Hs, Ht, Hi.
      split; by apply index_ok_snoc.
    + apply parse_line_frame in Hline as (He & Hs & Ht).
      apply IH; [|by rewrite He]. unfold store_ok. by rewrite He, Hs, Ht.
Qed.

(** Both indexes of a built dictionary point at last occurrences. *)
Lemma init_store_ok file store : __init__ file = Ok store → store_ok store.
Proof.
  unfold __init__, _parse_file. apply parse_lines_store_ok; [|done].
  split; apply index_ok_empty.
Qed.

(** An error on one line is an error of the whole loop. *)
Lemma parse_lines_raise file line :
  line ∈ file →
  (∀ self, ∃ e, _parse_line self line = Raise e) →
  ∀ self i, ∃ e, parse_lines self i file = Raise e.
Proof.
  intros Hin Hline. induction file as [|l file IH]; [inversion Hin|].
  intros self i. simpl. apply elem_of_cons in Hin as [<-|Hin].
  - destruct (Hline self) as [e ->]. by exists e.
  - destruct (_parse_line self l) as [[self' [e|]]|e]; simpl; eauto.
Qed.

(** Without a date line the timestamp stays as it was. *)
Lemma parse_lines_datetime file : ∀ self i store,
  Forall (λ line, startswith DATE_TAG line = false) file →
  parse_lines self i file = Ok store →
  _data_datetime store = _data_datetime self.
Proof.
  induction file as [|line file IH]; intros self i store Hno; simpl.
  - by intros [= <-].
  - apply Forall_cons in Hno as [Hline Hno].
    assert (∀ self' r, _parse_line self line = Ok (self', r) → self' = self) as Hsame.
    { unfold _parse_line. rewrite Hline. intros self' r.
      destruct (startswith (str "#") line); [by intros [= <-]|].
      destruct (parse_data_line line); simpl; [|done]. by intros [= <-]. }
    destruct (_parse_line self line) as [[self' [e|]]|]; simpl; [| |done];
      rewrite (Hsame _ _ eq_refl); intros Hrest; by apply IH in Hrest.
Qed.

End StoreFacts.

(** ** The claims *)

Section Claims.
Context `{DatetimeLib}.

(** When some entry has simplified form [h], [get_entry h] returns the last
    such entry, whatever the traditional index holds. *)
Lemma get_entry_simplified_last file store h :
  __init__ file = Ok store →
  (∃ Y, Y ∈ get_entries store ∧ simplified Y = h) →
  ∃ j Z, get_entry store h = Ok (Some Z) ∧ last_pos simplified h (get_entries store) j
         ∧ get_entries store !! j = Some Z.
Proof.
  intros Hinit (Y & HY & HYh). apply init_store_ok in Hinit as [Hs _].
  specialize (Hs h). unfold get_entry, get_entries in *.
  destruct (simplified_to_index store !! h) as [j|]; [|by destruct (Hs Y HY)].
  pose proof Hs as [(Z & HZ & HZh) Hlast].
  exists j, Z. unfold getitem. rewrite HZ. done.
Qed.

(** C1 (amended): [get_entry] checks the simplified index first. If an entry
    [X] has traditional form [h] and an entry [Y] has simplified form [h],
    [get_entry h] returns an entry whose simplified form is [h], the last one
    in file order; it is [Y] when [Y] is the only entry with that simplified
    form. Simplified wins over traditional on a cross-index collision. *)
Theorem C1_simplified_wins file store X Y h :
  __init__ file = Ok store →
  X ∈ get_entries store → traditional X = h →
  Y ∈ get_entries store → simplified Y = h →
  (∃ j Z, get_entry store h = Ok (Some Z) ∧ get_entries store !! j = Some Z ∧
          simplified Z = h ∧
          ∀ j' Z', j < j' → get_entries store !! j' = Some Z' → simplified Z' ≠ h) ∧
  ((∀ Z, Z ∈ get_entries store → simplified Z = h → Z = Y) →
   get_entry store h = Ok (Some Y)).
Proof.
  intros Hinit _ _ HY HYh.
  destruct (get_entry_simplified_last file store h Hinit) as (j & Z & Hget & Hlast & HZ);
    [by exists Y|].
  destruct Hlast as [(Z0 & HZ0 & HZ0h) Hlast].
  assert (Z0 = Z) as -> by congruence.
  split; [by exists j, Z|].
  intros Huniq. rewrite Hget. do 2 f_equal. apply Huniq; [|done].
  apply list_elem_of_lookup. by exists j.
Qed.

(** C4: two dictionary lines with the same simplified form and different
    traditional forms build a dictionary whose simplified index maps that form
    to position 1, the later entry; [get_entries] holds both entries in file
    order. *)
Theorem C4_last_write_wins l1 l2 e1 e2 :
  parses_to l1 e1 → parses_to l2 e2 →
  simplified e1 = simplified e2 → traditional e1 ≠ traditional e2 →
  ∃ store, __init__ [l1; l2] = Ok store ∧
           simplified_to_index store !! simplified e1 = Some 1 ∧
           get_entries store = [e1; e2] ∧
           get_entry store (simplified e1) = Ok (Some e2).
Proof.
  intros H1 H2 Hs Ht. eexists. unfold __init__, _parse_file. simpl.
  rewrite (proj2 (parse_line_entry _ l1 _ e1)) by done. simpl.
  rewrite (proj2 (parse_line_entry _ l2 _ e2)) by done. simpl.
  split; [done|]. unfold get_entry, get_entries. simpl. rewrite Hs.
  rewrite lookup_insert_eq. done.
Qed.

(** C8: for a dictionary built from a file in which no line starts with
    [#! date=], [get_data_days_old] raises
    [ValueError("Data datetime is not set.")], whatever the current date; it
    returns no number. *)
Theorem C8_no_date_line_raises file store current_date :
  __init__ file = Ok store →
  Forall (λ line, startswith DATE_TAG line = false) file →
  get_data_days_old store current_date = Raise (ValueError "Data datetime is not set.") ∧
  ∀ n : Z, get_data_days_old store current_date ≠ Ok n.
Proof.
  intros Hinit Hno. unfold __init__, _parse_file in Hinit.
  apply parse_lines_datetime in Hinit; [|done]. simpl in Hinit.
  unfold get_data_days_old. rewrite Hinit. done.
Qed.

(** A line that does not start with [#] goes through the dictionary-line
    grammar, on the object as it is. *)
Lemma parse_line_data self line :
  startswith (str "#") line = false →
  _parse_line self line = (e ← parse_data_line line; Ok (self, Some e)).
Proof. intros Hs. unfold _parse_line. by rewrite Hs. Qed.

(** C2 (amended): after trimming whitespace the parser removes every trailing
    [/], not at most one: what is removed from the trimmed line is a run of
    slashes, and the text handed to the splits never ends in [/]. Any number
    of slashes, followed by any whitespace, put directly after the last
    non-whitespace character of a dictionary line does not change what
    [_parse_line] returns. So trailing slashes never make an empty sense:
    when the first unpacking succeeds the text after the first [/] is not
    empty, does not end in [/], and its last sense is not empty; and the last
    definition of a parsed line is empty only when that text ends in [;]. *)
Theorem C2_all_trailing_slashes_stripped self line k ws :
  startswith (str "#") line = false →
  forallb isspace ws = true →
  (∃ n, strip line = normalised line ++ replicate n (ord "/")) ∧
  last (normalised line) ≠ Some (ord "/") ∧
  _parse_line self (rstrip_by isspace line ++ replicate k (ord "/") ++ ws)
    = _parse_line self line ∧
  (∀ chinese english,
     split_max (ord "/") (normalised line) 1 = [chinese; english] →
     english ≠ [] ∧ last english ≠ Some (ord "/") ∧
     ∃ sense, last (split (ord "/") english) = Some sense ∧ sense ≠ []) ∧
  (∀ e, parse_data_line line = Ok e →
     ∃ chinese english d,
       split_max (ord "/") (normalised line) 1 = [chinese; english] ∧
       definitions e = flat_glosses english ∧
       last (definitions e) = Some d ∧
       (d = [] → last english = Some (ord ";"))).
Proof.
  intros Hhash Hws. split_and!.
  - apply rstrip_char_run.
  - apply normalised_last.
  - pose proof (startswith_hash_rstrip _ Hhash) as Hhash'.
    rewrite !parse_line_data by (done || by apply startswith_hash_app).
    unfold parse_data_line.
    change (rstrip_char (ord "/") (strip ?l)) with (normalised l).
    rewrite normalised_app_slashes by (done || apply rstrip_by_idem).
    by rewrite normalised_rstrip.
  - intros chinese english Hsplit.
    destruct (english_last _ _ _ Hsplit) as (c & Hc & Hne).
    split_and!; [by intros ->|congruence|by eapply split_last].
  - intros e (chinese & english & hw & seg & t & s & H1 & _ & _ & ->)%parse_data_line_inv.
    destruct (english_last _ _ _ H1) as (c & Hc & Hne).
    destruct (last_gloss english c Hc Hne) as (d & Hd & Hempty).
    exists chinese, english, d. cbn [definitions]. split_and!; [done..|].
    intros ->%Hempty. done.
Qed.

(** C3 (amended): the parser drops the last character of the pinyin segment
    without looking at it. Whenever the three unpackings of a dictionary line
    succeed, with [seg] the text after the [[], the line parses and the
    pinyin is [seg] without its last character, whether or not that character
    is a closing bracket; and the only errors a dictionary line raises are
    unpacking errors. *)
Theorem C3_last_char_dropped_unchecked self line chinese english hw seg t s :
  startswith (str "#") line = false →
  split_max (ord "/") (normalised line) 1 = [chinese; english] →
  split (ord "[") (strip chinese) = [hw; seg] →
  split_ws (strip hw) = [t; s] →
  _parse_line self line =
    Ok (self, Some {| traditional := t; simplified := s;
                      pinyin := removelast seg;
                      definitions := flat_glosses english |}) ∧
  ∀ other err,
    startswith (str "#") other = false →
    _parse_line self other = Raise err →
    ∃ n, err = ValueError_unpack 2 n ∧ n ≠ 2.
Proof.
  intros Hhash H1 H2 H3. split.
  - rewrite parse_line_data by done.
    by rewrite (parse_data_line_steps _ _ _ _ _ _ _ H1 H2 H3).
  - intros other err Hother. rewrite parse_line_data by done.
    destruct (parse_data_line other) as [e|e'] eqn:E; simpl; [done|].
    intros [= <-]. by eapply parse_data_line_raise.
Qed.

(** C5: the line ["愛 爱 [ai4] /love/affection/"] parses to the entry with
    traditional ["愛"], simplified ["爱"], pinyin ["ai4"] and definitions
    ["love"], ["affection"], in that order. *)
Theorem C5_round_trip_parse self :
  _parse_line self (str "愛 爱 [ai4] /love/affection/") =
    Ok (self, Some {| traditional := str "愛"; simplified := str "爱";
                      pinyin := str "ai4";
                      definitions := [str "love"; str "affection"] |}).
Proof. apply parse_line_entry. split; [done|]. by split; vm_compute. Qed.

(** C6: the definitions of a parsed line are the english part (the text after
    the first [/]) split on [/] into senses, each sense split on [;] into
    glosses, all glosses in order; the english part
    ["to love/to be fond of;to cherish"] gives ["to love"], ["to be fond of"],
    ["to cherish"]. *)
Theorem C6_definitions_flattened self line self' e :
  _parse_line self line = Ok (self', Some e) →
  (∃ chinese english,
     split_max (ord "/") (normalised line) 1 = [chinese; english] ∧
     definitions e = concat (map (split (ord ";")) (split (ord "/") english))) ∧
  flat_glosses (str "to love/to be fond of;to cherish") =
    [str "to love"; str "to be fond of"; str "to cherish"].
Proof.
  intros [_ [_ Hparse]]%parse_line_entry. split; [|by vm_compute].
  apply parse_data_line_inv in Hparse
    as (chinese & english & hw & seg & t & s & H1 & _ & _ & ->).
  by exists chinese, english.
Qed.

(** C7: a file holding a line that does not start with [#] and either has no
    [/] or has a number of headword tokens other than two makes the
    constructor raise: the caller gets an exception and no object. *)
Theorem C7_malformed_line_aborts file line :
  line ∈ file →
  startswith (str "#") line = false →
  ord "/" ∉ line ∨ length (headword_tokens line) ≠ 2 →
  (∃ e, __init__ file = Raise e) ∧ ∀ store, __init__ file ≠ Ok store.
Proof.
  intros Hin Hhash Hbad.
  assert (∃ e, __init__ file = Raise e) as [e He].
  { unfold __init__, _parse_file. apply (parse_lines_raise file line Hin).
    intros self. rewrite parse_line_data by done.
    destruct Hbad as [Hno|Htok].
    - rewrite parse_data_line_no_slash by done. by eexists.
    - destruct (parse_data_line_tokens line Htok) as [e ->]. by exists e. }
  split; [by exists e|]. intros store. by rewrite He.
Qed.

(** C9 (amended): a blank line is not skipped. For every empty or
    whitespace-only line the line parser raises the unpacking error
    "expected 2, got 1" and returns nothing, and a file that holds such a
    line makes the constructor raise. *)
Theorem C9_blank_line_raises self line :
  isblank line = true →
  _parse_line self line = Raise (ValueError_unpack 2 1) ∧
  ∀ file, line ∈ file → ∃ e, __init__ file = Raise e.
Proof.
  intros Hb.
  assert (∀ self0, _parse_line self0 line = Raise (ValueError_unpack 2 1)) as Hraise.
  { intros self0. rewrite parse_line_data by by apply blank_not_comment.
    by rewrite parse_data_line_blank. }
  split; [done|]. intros file Hin. unfold __init__, _parse_file.
  apply (parse_lines_raise file line Hin). intros self0. eauto.
Qed.

(** C10: whether a line is a comment is decided on the raw line. The line
    parser returns nothing, or fails in [strptime], exactly when the first
    character is [#]; in that case no entry is produced. Any other line is
    handed to the dictionary-line grammar and is never skipped; in particular
    whitespace followed by [#] is parsed as the dictionary line that starts
    with [#]. *)
Theorem C10_comment_decided_on_raw_line self line :
  (((∃ self', _parse_line self line = Ok (self', None)) ∨
    _parse_line self line = Raise ValueError_strptime)
   ↔ ∃ rest, line = ord "#" :: rest) ∧
  ((∃ rest, line = ord "#" :: rest) →
   ∀ self' e, _parse_line self line ≠ Ok (self', Some e)) ∧
  ((¬ ∃ rest, line = ord "#" :: rest) →
   _parse_line self line = (e ← parse_data_line line; Ok (self, Some e))) ∧
  (∀ ws rest, ws ≠ [] → forallb isspace ws = true →
   _parse_line self (ws ++ ord "#" :: rest) =
     (e ← parse_data_line (ord "#" :: rest); Ok (self, Some e))).
Proof.
  split_and!.
  - rewrite <- startswith_hash. unfold _parse_line.
    destruct (startswith (str "#") line).
    + split; [done|]. intros _.
      destruct (startswith DATE_TAG line); [|left; by eexists].
      destruct (strptime _); [left; by eexists|by right].
    + split; [|done].
      destruct (parse_data_line line) as [e|e] eqn:E; simpl.
      * by intros [[? ?]|?].
      * intros [[? ?]|[= ->]]; [done|].
        by apply parse_data_line_raise in E as (? & ? & ?).
  - intros Hrest%startswith_hash self' e Hparse.
    apply parse_line_entry in Hparse as [_ [Hs _]]. congruence.
  - intros Hnot. apply parse_line_data.
    destruct (startswith (str "#") line) eqn:Hs; [|done].
    by apply startswith_hash in Hs.
  - intros ws rest Hne Hws. rewrite parse_line_data.
    + unfold parse_data_line. by rewrite strip_blank_app.
    + destruct (startswith _ _) eqn:Hs; [|done].
      apply startswith_hash in Hs as [r Hr].
      destruct ws as [|c ws]; [done|]. injection Hr as -> _. done.
Qed.

End Claims.

(** ** The claims on concrete files

    The examples run the model with the [Iso] datetime instance. A query on a
    built dictionary is written [store ← __init__ file; query store]. *)

(** What a successful build returned is what every later query sees. *)
Lemma init_bind {A} file store (query : CcCedict → result A) :
  __init__ file = Ok store → (store ← __init__ file; query store) = query store.
Proof. by intros ->. Qed.

(** C1 (counterexample): in [collision_file] the first entry, [collision_X],
    has traditional form [H] and the second, [collision_Y], has simplified
    form [H]; [get_entry "H"] returns the second, not the first. *)
Lemma C1_counterexample :
  (store ← __init__ collision_file; Ok (get_entries store))
    = Ok [collision_X; collision_Y] ∧
  traditional collision_X = str "H" ∧
  simplified collision_Y = str "H" ∧
  (store ← __init__ collision_file; get_entry store (str "H"))
    = Ok (Some collision_Y) ∧
  (store ← __init__ collision_file; get_entry store (str "H"))
    ≠ Ok (Some collision_X).
Proof. split_and!; by vm_compute. Qed.

Lemma C1_simplified_wins_witness :
  (store ← __init__ collision_file; get_entry store (str "H"))
    = Ok (Some collision_Y).
Proof.
  assert ((store ← __init__ collision_file; Ok (get_entries store))
          = Ok [collision_X; collision_Y]) as Hentries by by vm_compute.
  destruct (__init__ collision_file) as [store|e] eqn:E; [|done].
  simpl in *. injection Hentries as Hentries.
  apply (C1_simplified_wins collision_file store collision_X collision_Y (str "H"));
    rewrite ?Hentries; try done.
  - apply list_elem_of_here.
  - apply list_elem_of_further, list_elem_of_here.
  - intros Z [->|HZ]%elem_of_cons; [by vm_compute|].
    by apply list_elem_of_singleton in HZ as ->.
Defined.

Lemma C2_counterexample :
  _parse_line blank_self double_slash_line =
    Ok (blank_self, Some {| traditional := str "A"; simplified := str "B";
                            pinyin := str "x"; definitions := [str "d"] |}) ∧
  normalised double_slash_line = str "A B [x] /d" ∧
  [str "d"] ≠ [str "d"; str ""].
Proof.
  split_and!; [|by vm_compute..].
  apply parse_line_entry. split; [done|]. by split; vm_compute.
Qed.

Lemma C2_all_trailing_slashes_stripped_witness :
  _parse_line blank_self
    (rstrip_by isspace (str "A B [x] /d ") ++ replicate 2 (ord "/") ++ [10%N])
    = _parse_line blank_self (str "A B [x] /d ").
Proof.
  apply (C2_all_trailing_slashes_stripped blank_self (str "A B [x] /d ") 2 [10%N]);
    by vm_compute.
Defined.

(** Two lines at the edge of C2: slashes after a [;] leave the empty gloss of
    the [;], and a slash after a space keeps the space that [strip] would
    have removed at the end of the line. *)
Lemma slashes_after_semicolon_or_space :
  parse_data_line (str "A B [x] /d;//") =
    Ok {| traditional := str "A"; simplified := str "B"; pinyin := str "x";
          definitions := [str "d"; []] |} ∧
  parse_data_line (str "A B [x] /d /") =
    Ok {| traditional := str "A"; simplified := str "B"; pinyin := str "x";
          definitions := [str "d "] |} ∧
  parse_data_line (str "A B [x] /d ") =
    Ok {| traditional := str "A"; simplified := str "B"; pinyin := str "x";
          definitions := [str "d"] |}.
Proof. split_and!; by vm_compute. Qed.

Lemma C3_counterexample :
  split (ord "[") (chinese_part bracketless_line) = [str "A B "; str "ai4"] ∧
  last (str "ai4") ≠ Some (ord "]") ∧
  _parse_line blank_self bracketless_line =
    Ok (blank_self, Some {| traditional := str "A"; simplified := str "B";
                            pinyin := str "ai"; definitions := [str "love"] |}).
Proof.
  split_and!; [by vm_compute..|].
  apply parse_line_entry. split; [done|]. by split; vm_compute.
Qed.

Lemma C3_last_char_dropped_unchecked_witness :
  _parse_line blank_self bracketless_line =
    Ok (blank_self, Some {| traditional := str "A"; simplified := str "B";
                            pinyin := removelast (str "ai4");
                            definitions := flat_glosses (str "love") |}).
Proof.
  apply (C3_last_char_dropped_unchecked blank_self bracketless_line
           (str "A B [ai4 ") (str "love") (str "A B ") (str "ai4") (str "A") (str "B"));
    by vm_compute.
Defined.

Lemma C4_last_write_wins_witness :
  ∃ store, __init__ [hou_1; hou_2] = Ok store ∧
           simplified_to_index store !! simplified hou_entry_1 = Some 1 ∧
           get_entries store = [hou_entry_1; hou_entry_2] ∧
           get_entry store (simplified hou_entry_1) = Ok (Some hou_entry_2).
Proof.
  apply (C4_last_write_wins hou_1 hou_2 hou_entry_1 hou_entry_2);
    try (by split; vm_compute); by vm_compute.
Defined.

Lemma C6_definitions_flattened_witness :
  ∃ chinese english,
    split_max (ord "/") (normalised love_line) 1 = [chinese; english] ∧
    [str "to love"; str "to be fond of"; str "to cherish"] =
      concat (map (split (ord ";")) (split (ord "/") english)).
Proof.
  apply (C6_definitions_flattened blank_self love_line blank_self
           {| traditional := str "愛"; simplified := str "爱"; pinyin := str "ai4";
              definitions := [str "to love"; str "to be fond of"; str "to cherish"] |}).
  apply parse_line_entry. split; [done|]. by split; vm_compute.
Defined.

Lemma C7_malformed_line_aborts_witness :
  (∃ e, __init__ no_slash_file = Raise e) ∧
  (∃ e, __init__ three_token_file = Raise e).
Proof.
  split.
  - apply (C7_malformed_line_aborts no_slash_file (str "no slash here")).
    + apply list_elem_of_further, list_elem_of_here.
    + by vm_compute.
    + left. apply (bool_decide_unpack _). by vm_compute.
  - apply (C7_malformed_line_aborts three_token_file (str "A B C [x] /d/")).
    + apply list_elem_of_here.
    + by vm_compute.
    + right. by vm_compute.
Defined.

Lemma C8_no_date_line_raises_witness :
  (store ← __init__ undated_file;
   get_data_days_old store
     {| Iso.year := 2026; Iso.month := 1; Iso.day := 1;
        Iso.hour := 0; Iso.minute := 0; Iso.second := 0 |})
    = Raise (ValueError "Data datetime is not set.").
Proof.
  assert ((store ← __init__ undated_file; Ok (get_entries store)) = Ok [ai_entry])
    as Hentries by by vm_compute.
  destruct (__init__ undated_file) as [store|e] eqn:E; [|done]. simpl.
  apply (C8_no_date_line_raises undated_file store); [done|].
  by repeat constructor.
Defined.

Lemma C9_counterexample :
  isblank empty_line = true ∧ isblank spaces_line = true ∧
  _parse_line blank_self empty_line = Raise (ValueError_unpack 2 1) ∧
  _parse_line blank_self spaces_line = Raise (ValueError_unpack 2 1) ∧
  _parse_line blank_self empty_line ≠ Ok (blank_self, None).
Proof.
  assert (∀ line, isblank line = true →
          _parse_line blank_self line = Raise (ValueError_unpack 2 1)) as Hraise.
  { intros line Hb. unfold _parse_line.
    by rewrite blank_not_comment, parse_data_line_blank. }
  split_and!; [done..| | |].
  - by apply Hraise.
  - by apply Hraise.
  - by rewrite Hraise.
Qed.

Lemma C9_blank_line_raises_witness :
  _parse_line blank_self spaces_line = Raise (ValueError_unpack 2 1) ∧
  ∃ e, __init__ [ai_line; spaces_line] = Raise e.
Proof.
  destruct (C9_blank_line_raises blank_self spaces_line) as [Hline Hfile]; [done|].
  split; [done|]. apply Hfile, list_elem_of_further, list_elem_of_here.
Defined.

Lemma C10_comment_decided_on_raw_line_witness :
  _parse_line blank_self indented_hash_line =
    Ok (blank_self, Some {| traditional := str "#A"; simplified := str "B";
                            pinyin := str "x"; definitions := [str "d"] |}).
Proof.
  change indented_hash_line with ([32%N] ++ ord "#" :: str "A B [x] /d/").
  destruct (C10_comment_decided_on_raw_line blank_self []) as (_ & _ & _ & Hws).
  rewrite Hws by done.
  assert (parse_data_line (ord "#" :: str "A B [x] /d/") =
          Ok {| traditional := str "#A"; simplified := str "B";
                pinyin := str "x"; definitions := [str "d"] |}) as ->
    by by vm_compute.
  done.
Defined.

(** * Further properties of the build and of the queries *)

Section StoreProperties.
Context `{DatetimeLib}.

(** ** One line *)

Lemma date_tag_hash line :
  startswith DATE_TAG line = true → startswith (str "#") line = true.
Proof.
  destruct line as [|c line]; [done|].
  change DATE_TAG with (ord "#" :: str "! date=").
  change (str "#") with [ord "#"]. cbn [startswith].
  intros [-> _]%andb_true_iff. done.
Qed.

(** The three ways in which a line is accepted, and the two in which it is
    refused; none depends on the object beyond its carried fields. *)
Lemma parse_line_cases self line :
  (plain_comment line = true ∧ date_line_value line = None ∧
   _parse_line self line = Ok (self, None)) ∨
  (startswith (str "#") line = true ∧
   ∃ d, date_line_value line = Some d ∧
        _parse_line self line =
          Ok ({| _data_datetime := Some d;
                 entries := entries self;
                 simplified_to_index := simplified_to_index self;
                 traditional_to_index := traditional_to_index self |}, None)) ∨
  (startswith (str "#") line = true ∧ startswith DATE_TAG line = true ∧
   date_line_value line = None ∧
   _parse_line self line = Raise ValueError_strptime) ∨
  (date_line_value line = None ∧
   ∃ e, parses_to line e ∧ _parse_line self line = Ok (self, Some e)) ∨
  (startswith (str "#") line = false ∧ date_line_value line = None ∧
   ∃ err, parse_data_line line = Raise err ∧ _parse_line self line = Raise err).
Proof.
  unfold _parse_line, plain_comment, date_line_value, parses_to.
  destruct (startswith DATE_TAG line) eqn:Hd.
  - rewrite (date_tag_hash _ Hd).
    destruct (strptime _) as [d|]; [right; left|right; right; left]; eauto.
  - destruct (startswith (str "#") line) eqn:Hh; [by left|].
    do 3 right. destruct (parse_data_line line) as [e|err]; [left|right]; eauto.
Qed.

(** Whether a line is accepted does not depend on the object. *)
Lemma parse_line_ok_indep self self' line :
  (∃ out, _parse_line self line = Ok out) → ∃ out, _parse_line self' line = Ok out.
Proof.
  intros [out Hout]. revert Hout. unfold _parse_line.
  destruct (startswith (str "#") line).
  - destruct (startswith DATE_TAG line); [|by eauto].
    destruct (strptime _); [by eauto|done].
  - destruct (parse_data_line line); simpl; [by eauto|done].
Qed.

(** Nor does the exception of a refused line. *)
Lemma parse_line_raise_indep self self' line err :
  _parse_line self line = Raise err → _parse_line self' line = Raise err.
Proof.
  unfold _parse_line. destruct (startswith (str "#") line).
  - destruct (startswith DATE_TAG line); [|done]. by destruct (strptime _).
  - by destruct (parse_data_line line).
Qed.

Lemma parse_line_none self line self' :
  _parse_line self line = Ok (self', None) → startswith (str "#") line = true.
Proof.
  unfold _parse_line. destruct (startswith (str "#") line); [done|].
  by destruct (parse_data_line line).
Qed.

(** ** The loop *)

(** One turn of the loop. *)
Lemma parse_lines_cons self i line file :
  parse_lines self i (line :: file) =
  match _parse_line self line with
  | Ok (self', Some e) =>
    parse_lines
      {| _data_datetime := _data_datetime self';
         entries := entries self' ++ [e];
         simplified_to_index := <[simplified e := i]> (simplified_to_index self');
         traditional_to_index := <[traditional e := i]> (traditional_to_index self') |}
      (S i) file
  | Ok (self', None) => parse_lines self' i file
  | Raise err => Raise err
  end.
Proof.
  cbn [parse_lines]. by destruct (_parse_line self line) as [[self' [e|]]|].
Qed.

(** The entries appended by the loop are the parses of the data lines. *)
Lemma parse_lines_entries file : ∀ self i store,
  parse_lines self i file = Ok store →
  ∃ es, entries store = entries self ++ es ∧ Forall2 parses_to (data_lines file) es.
Proof.
  unfold data_lines.
  induction file as [|line file IH]; intros self i store.
  - intros [= <-]. exists []. by rewrite app_nil_r.
  - rewrite parse_lines_cons.
    destruct (_parse_line self line) as [[self' [e|]]|] eqn:Hline; [| |done].
    + apply parse_line_entry in Hline as [-> Hp].
      intros (es & -> & Hes)%IH. exists (e :: es).
      cbn [entries]. rewrite <- app_assoc. split; [done|].
      rewrite filter_cons_True by apply Hp. by constructor.
    + pose proof (parse_line_none _ _ _ Hline) as Hh.
      apply parse_line_frame in Hline as (He & _ & _).
      intros (es & -> & Hes)%IH. exists es. rewrite He. split; [done|].
      rewrite filter_cons_False; [done|]. by rewrite Hh.
Qed.

(** The timestamp after the loop is that of the last accepted date line. *)
Lemma parse_lines_last_date file : ∀ self i store,
  parse_lines self i file = Ok store →
  _data_datetime store =
    match last (omap date_line_value file) with
    | Some d => Some d
    | None => _data_datetime self
    end.
Proof.
  induction file as [|line file IH]; intros self i store; simpl.
  - by intros [= <-].
  - destruct (parse_line_cases self line)
      as [(_&Hd&E)|[(_&d&Hd&E)|[(_&_&Hd&E)|[(Hd&e&He&E)|(_&Hd&err&_&E)]]]];
      rewrite E, Hd; simpl; try done.
    + apply IH.
    + intros ->%IH. simpl. rewrite last_cons. by destruct (last _).
    + intros ->%IH. done.
Qed.

(** The loop returns when every line is accepted. *)
Lemma parse_lines_total file : ∀ self i,
  (∀ line, line ∈ file → ∀ self, ∃ out, _parse_line self line = Ok out) →
  ∃ store, parse_lines self i file = Ok store.
Proof.
  induction file as [|line file IH]; intros self i Hall; simpl; [by eexists|].
  destruct (Hall line (list_elem_of_here _ _) self) as [[self' r] ->]. simpl.
  destruct r; apply IH; intros l Hl; apply Hall; by apply list_elem_of_further.
Qed.

(** The loop stops at the first refused line, with that line's exception. *)
Lemma parse_lines_first_error good : ∀ bad rest err self i,
  (∀ line, line ∈ good → ∀ self, ∃ out, _parse_line self line = Ok out) →
  (∀ self, _parse_line self bad = Raise err) →
  parse_lines self i (good ++ bad :: rest) = Raise err.
Proof.
  induction good as [|line good IH]; intros bad rest err self i Hall Hbad; simpl.
  - by rewrite Hbad.
  - destruct (Hall line (list_elem_of_here _ _) self) as [[self' r] ->]. simpl.
    destruct r; apply IH; try done; intros l Hl; apply Hall;
      by apply list_elem_of_further.
Qed.

Lemma parse_lines_error_split file : ∀ self i err,
  parse_lines self i file = Raise err →
  ∃ good bad rest, file = good ++ bad :: rest ∧
    (∀ line, line ∈ good → ∀ self, ∃ out, _parse_line self line = Ok out) ∧
    (∀ self, _parse_line self bad = Raise err).
Proof.
  induction file as [|line file IH]; intros self i err; simpl; [done|].
  destruct (_parse_line self line) as [[self' r]|e] eqn:Hline; simpl.
  - intros Hrest.
    assert (∃ good bad rest, file = good ++ bad :: rest ∧
      (∀ line, line ∈ good → ∀ self, ∃ out, _parse_line self line = Ok out) ∧
      (∀ self, _parse_line self bad = Raise err)) as (good & bad & rest & -> & Hg & Hb).
    { destruct r; by eapply IH. }
    exists (line :: good), bad, rest. split_and!; [done| |done].
    intros l [->|Hl]%elem_of_cons self0; [|by apply Hg].
    eapply parse_line_ok_indep. by eexists.
  - intros [= ->]. exists [], line, file. split_and!; [done| |].
    + intros l Hl. inversion Hl.
    + intros self0. by eapply parse_line_raise_indep.
Qed.

(** Plain comment lines do not change what the loop does. *)
Lemma parse_lines_plain_comments file : ∀ self i,
  parse_lines self i (filter (λ line, plain_comment line = false) file)
  = parse_lines self i file.
Proof.
  induction file as [|line file IH]; intros self i; [done|].
  destruct (plain_comment line) eqn:Hc.
  - rewrite filter_cons_False by by rewrite Hc. rewrite IH. simpl.
    destruct (parse_line_cases self line)
      as [(_&_&E)|[(Hh&d&Hd&E)|[(_&Hd&_&E)|[(_&e&[He _]&E)|(Hh&_)]]]].
    + by rewrite E.
    + unfold plain_comment, date_line_value in *.
      destruct (startswith DATE_TAG line); [|done]. by rewrite Hh in Hc.
    + unfold plain_comment in Hc. rewrite Hd in Hc.
      by destruct (startswith (str "#") line).
    + unfold plain_comment in Hc. by rewrite He in Hc.
    + unfold plain_comment in Hc. by rewrite Hh in Hc.
  - rewrite filter_cons_True by done. simpl.
    destruct (_parse_line self line) as [[self' [e|]]|]; simpl; by rewrite ?IH.
Qed.


Lemma parse_lines_ok_all file : ∀ self i store,
  parse_lines self i file = Ok store →
  ∀ line, line ∈ file → ∀ self, ∃ out, _parse_line self line = Ok out.
Proof.
  induction file as [|line file IH]; intros self i store Hok l Hl; [inversion Hl|].
  rewrite parse_lines_cons in Hok.
  destruct (_parse_line self line) as [[self' r]|] eqn:Hline; [|done].
  apply elem_of_cons in Hl as [->|Hl].
  - intros self0. eapply parse_line_ok_indep. by eexists.
  - destruct r; by eapply IH.
Qed.

(** A string that starts with a prefix ending in a visible character still
    does, or still does not, when whitespace is appended. *)
Lemma startswith_app_blank p c s ws :
  isspace c = false → forallb isspace ws = true →
  startswith (p ++ [c]) (s ++ ws) = startswith (p ++ [c]) s.
Proof.
  intros Hc Hws. revert s. induction p as [|a p IH]; intros [|b s]; cbn [app startswith].
  - destruct ws as [|w ws]; [done|]. cbn [startswith].
    apply andb_true_iff in Hws as [Hw _].
    destruct (N.eqb_spec c w) as [->|]; [congruence|done].
  - done.
  - destruct ws as [|w ws]; [done|]. cbn [startswith].
    apply andb_true_iff in Hws as [Hw Hws].
    destruct (N.eqb_spec a w) as [->|]; [|done]. cbn [andb].
    clear IH. revert ws Hws. induction p as [|a' p IHp]; intros [|w' ws] Hws;
      cbn [app startswith]; try done.
    + apply andb_true_iff in Hws as [Hw' _].
      destruct (N.eqb_spec c w') as [->|]; [congruence|done].
    + apply andb_true_iff in Hws as [Hw' Hws].
      destruct (a' =? w')%N; [|done]. by apply IHp.
  - by rewrite IH.
Qed.

(** Trailing whitespace, such as the newline that ends a line of the file,
    changes nothing for one line. *)
Lemma parse_line_app_blank self line ws :
  forallb isspace ws = true →
  _parse_line self (line ++ ws) = _parse_line self line.
Proof.
  intros Hws. unfold _parse_line.
  change (str "#") with ([] ++ [ord "#"]).
  rewrite (startswith_app_blank [] (ord "#")) by done.
  change DATE_TAG with (str "#! date" ++ [ord "="]).
  rewrite (startswith_app_blank (str "#! date") (ord "=")) by done.
  destruct (startswith ([] ++ [ord "#"]) line) eqn:Hh.
  - destruct (startswith (str "#! date" ++ [ord "="]) line) eqn:Hd; [|done].
    assert (length (str "#! date" ++ [ord "="]) ≤ length line) as Hlen.
    { clear -Hd. revert Hd. generalize (str "#! date" ++ [ord "="]).
      intros p. revert line. induction p as [|a p IH]; intros [|b s]; cbn [startswith length];
        try done; [lia|].
      intros [_ Hp]%andb_true_iff. apply IH in Hp. lia. }
    rewrite drop_app_le by done. by rewrite strip_app_blank.
  - unfold parse_data_line. by rewrite strip_app_blank.
Qed.

(** ** The built dictionary *)

(** X1: the entries of a built dictionary are the parses of the lines that do
    not start with [#], one entry for each such line, in file order. *)
Theorem built_entries_in_file_order file store :
  __init__ file = Ok store →
  Forall2 parses_to (data_lines file) (get_entries store).
Proof.
  intros (es & Hes & Hall)%parse_lines_entries. unfold get_entries.
  by rewrite Hes.
Qed.

(** X2: the constructor returns an object exactly when [_parse_line] accepts
    every line of the file. *)
Theorem build_succeeds_iff file :
  (∃ store, __init__ file = Ok store) ↔
  (∀ line, line ∈ file → ∀ self, ∃ out, _parse_line self line = Ok out).
Proof.
  split.
  - intros [store Hok]. by eapply parse_lines_ok_all.
  - intros Hall. by apply parse_lines_total.
Qed.

(** X3: the constructor raises [err] exactly when the file has a first line that
    [_parse_line] refuses, and [err] is the exception of that line: the lines
    after it are not looked at. *)
Theorem build_fails_at_first_bad_line file err :
  __init__ file = Raise err ↔
  ∃ good bad rest, file = good ++ bad :: rest ∧
    (∀ line, line ∈ good → ∀ self, ∃ out, _parse_line self line = Ok out) ∧
    (∀ self, _parse_line self bad = Raise err).
Proof.
  split.
  - apply parse_lines_error_split.
  - intros (good & bad & rest & -> & Hgood & Hbad).
    by apply parse_lines_first_error.
Qed.

(** X4: a failing constructor raises one of two exceptions: the [ValueError] of
    [strptime] on a date line, or the [ValueError] of a two-target unpacking
    that got another number of values. It never raises [IndexError] or the
    [ValueError] of [get_data_days_old]. *)
Theorem build_error_kinds file err :
  __init__ file = Raise err →
  err = ValueError_strptime ∨ ∃ n, n ≠ 2 ∧ err = ValueError_unpack 2 n.
Proof.
  intros (good & bad & rest & _ & _ & Hbad)%parse_lines_error_split.
  specialize (Hbad {| _data_datetime := None; entries := [];
                      simplified_to_index := ∅; traditional_to_index := ∅ |}).
  destruct (parse_line_cases
              {| _data_datetime := None; entries := [];
                 simplified_to_index := ∅; traditional_to_index := ∅ |} bad)
    as [(_&_&E)|[(_&d&Hd&E)|[(_&_&Hd&E)|[(Hd&e&He&E)|(_&Hd&err0&Herr0&E)]]]];
    rewrite E in Hbad; try done.
  - left. congruence.
  - right. injection Hbad as <-.
    apply parse_data_line_raise in Herr0 as (n & -> & Hn). eauto.
Qed.

(** X5: the timestamp of a built dictionary is the one read from the last line
    of the file that starts with [#! date=]; without such a line it is
    [None]. *)
Theorem timestamp_of_last_date_line file store :
  __init__ file = Ok store →
  get_data_datetime store = last (omap date_line_value file).
Proof.
  intros Hok%parse_lines_last_date. unfold get_data_datetime. rewrite Hok.
  cbn [_data_datetime]. by destruct (last _).
Qed.

(** X6: on a built dictionary [get_data_days_old] returns a number exactly when
    some line of the file starts with [#! date=]; the number is the day
    difference between the current date and the timestamp of the last such
    line. *)
Theorem days_old_iff_date_line file store now :
  __init__ file = Ok store →
  ((∃ n, get_data_days_old store now = Ok n) ↔
   (∃ line, line ∈ file ∧ startswith DATE_TAG line = true)) ∧
  (∀ n, get_data_days_old store now = Ok n →
        ∃ d, last (omap date_line_value file) = Some d ∧ n = timedelta_days now d).
Proof.
  intros Hok. pose proof (parse_lines_last_date _ _ _ _ Hok) as Hts.
  cbn [_data_datetime] in Hts. unfold get_data_days_old.
  assert (_data_datetime store = last (omap date_line_value file)) as ->.
  { rewrite Hts. by destruct (last _). }
  clear Hts.
  split; [split|].
  - intros [n Hn]. destruct (last _) as [d|] eqn:Hlast; [|done].
    apply last_Some_elem_of, list_elem_of_omap in Hlast as (line & Hline & Hd).
    exists line. split; [done|]. unfold date_line_value in Hd.
    by destruct (startswith DATE_TAG line).
  - intros (line & Hline & Hd).
    destruct (parse_lines_ok_all _ _ _ _ Hok line Hline store) as [out Hout].
    assert (is_Some (date_line_value line)) as [d Hdv].
    { unfold _parse_line, date_line_value in *.
      rewrite (date_tag_hash _ Hd), Hd in *. by destruct (strptime _). }
    assert (d ∈ omap date_line_value file) as Hin.
    { apply list_elem_of_omap. eauto. }
    destruct (last _) as [d'|] eqn:Hlast; [by eexists|].
    apply last_None in Hlast. rewrite Hlast in Hin. inversion Hin.
  - intros n Hn. destruct (last _) as [d|]; [|done]. injection Hn as <-. eauto.
Qed.

(** X14: comment lines other than date lines can be taken out of the file, or
    put in, without changing the outcome of the constructor. *)
Theorem plain_comments_are_inert file :
  __init__ (filter (λ line, plain_comment line = false) file) = __init__ file.
Proof. unfold __init__, _parse_file. apply parse_lines_plain_comments. Qed.

Lemma parse_lines_app_blank file file' :
  Forall2 (λ line line', ∃ ws, forallb isspace ws = true ∧ line' = line ++ ws)
          file file' →
  ∀ self i, parse_lines self i file' = parse_lines self i file.
Proof.
  induction 1 as [|line line' file file' (ws & Hws & ->) _ IH]; intros self i;
    [done|].
  rewrite !parse_lines_cons, parse_line_app_blank by done.
  destruct (_parse_line self line) as [[self' [e|]]|]; by rewrite ?IH.
Qed.

(** X15: whitespace at the end of the lines, such as the newline that a text file
    keeps on each line, does not change the outcome of the constructor. *)
Theorem trailing_whitespace_is_inert file file' :
  Forall2 (λ line line', ∃ ws, forallb isspace ws = true ∧ line' = line ++ ws)
          file file' →
  __init__ file' = __init__ file.
Proof. intros Hff. unfold __init__, _parse_file. by apply parse_lines_app_blank. Qed.

End StoreProperties.

(** ** Queries on a built dictionary *)

Section QueryProperties.
Context `{DatetimeLib}.

(** An index that satisfies the invariant holds exactly the last positions. *)
Lemma index_ok_exact key m es k j :
  index_ok key m es → m !! k = Some j ↔ last_pos key k es j.
Proof.
  intros Hm. specialize (Hm k). split.
  - intros E. by rewrite E in Hm.
  - intros [(e & He & Hk) Hlast]. destruct (m !! k) as [j'|].
    + destruct Hm as [(e' & He' & Hk') Hlast']. f_equal.
      destruct (Nat.lt_trichotomy j j') as [Hlt|[Heq|Hgt]]; [|done|].
      * by destruct (Hlast j' e' Hlt He').
      * by destruct (Hlast' j e Hgt He).
    + destruct (Hm e); [|done]. apply list_elem_of_lookup. eauto.
Qed.

Lemma index_ok_none key m es k :
  index_ok key m es → m !! k = None ↔ ∀ e, e ∈ es → key e ≠ k.
Proof.
  intros Hm. specialize (Hm k). split.
  - intros E. by rewrite E in Hm.
  - intros Hno. destruct (m !! k) as [j|]; [|done].
    destruct Hm as [(e & He & Hk) _]. destruct (Hno e); [|done].
    apply list_elem_of_lookup. eauto.
Qed.

(** A lookup that falls through to the traditional index. *)
Lemma get_entry_traditional_last file store h :
  __init__ file = Ok store →
  (∀ e, e ∈ get_entries store → simplified e ≠ h) →
  (∃ X, X ∈ get_entries store ∧ traditional X = h) →
  ∃ j Z, get_entry store h = Ok (Some Z) ∧
         last_pos traditional h (get_entries store) j ∧
         get_entries store !! j = Some Z.
Proof.
  intros [Hs Ht]%init_store_ok Hno (X & HX & HXh).
  unfold get_entry, get_entries in *.
  rewrite (proj2 (index_ok_none _ _ _ h Hs)) by done.
  specialize (Ht h).
  destruct (traditional_to_index store !! h) as [j|]; [|by destruct (Ht X HX)].
  pose proof Ht as [(Z & HZ & HZh) Hlast].
  exists j, Z. unfold getitem. rewrite HZ. done.
Qed.

(** [get_entry] on a dictionary that satisfies the invariant returns. *)
Lemma get_entry_total file store h :
  __init__ file = Ok store → ∃ r, get_entry store h = Ok r.
Proof.
  intros [Hs Ht]%init_store_ok. unfold get_entry, getitem.
  specialize (Hs h). specialize (Ht h).
  destruct (simplified_to_index store !! h) as [j|].
  { destruct Hs as [(e & -> & _) _]. by eexists. }
  destruct (traditional_to_index store !! h) as [j|]; [|by eexists].
  destruct Ht as [(e & -> & _) _]. by eexists.
Qed.

(** X7: in a built dictionary each index maps a form to a position exactly when
    that position holds the last entry of the list with that form: every
    indexed position is inside the list, and every form of every entry is
    indexed. *)
Theorem indexes_hold_last_positions file store k j :
  __init__ file = Ok store →
  (simplified_to_index store !! k = Some j ↔
     last_pos simplified k (get_entries store) j) ∧
  (traditional_to_index store !! k = Some j ↔
     last_pos traditional k (get_entries store) j).
Proof.
  intros [Hs Ht]%init_store_ok. split; by apply index_ok_exact.
Qed.

(** X8: on a built dictionary [get_entry] never raises, and an entry it returns
    is an entry of the list that has the looked-up string as its simplified
    or its traditional form. *)
Theorem get_entry_returns_matching_entry file store h :
  __init__ file = Ok store →
  ∃ r, get_entry store h = Ok r ∧
       ∀ e, r = Some e →
            e ∈ get_entries store ∧ (simplified e = h ∨ traditional e = h).
Proof.
  intros [Hs Ht]%init_store_ok. unfold get_entry, get_entries, getitem.
  specialize (Hs h). specialize (Ht h).
  destruct (simplified_to_index store !! h) as [j|].
  - destruct Hs as [(e & He & Hk) _]. rewrite He. eexists. split; [done|].
    intros e' [= <-]. split; [|by left]. apply list_elem_of_lookup. eauto.
  - destruct (traditional_to_index store !! h) as [j|].
    + destruct Ht as [(e & He & Hk) _]. rewrite He. eexists. split; [done|].
      intros e' [= <-]. split; [|by right]. apply list_elem_of_lookup. eauto.
    + eexists. split; [done|]. done.
Qed.

(** X9: on a built dictionary [get_entry] returns [None] exactly for the strings
    that are neither the simplified nor the traditional form of any entry. *)
Theorem get_entry_none_iff_absent file store h :
  __init__ file = Ok store →
  get_entry store h = Ok None ↔
  ∀ e, e ∈ get_entries store → simplified e ≠ h ∧ traditional e ≠ h.
Proof.
  intros [Hs Ht]%init_store_ok. unfold get_entry, get_entries, getitem.
  pose proof (index_ok_none _ _ _ h Hs) as Hsn.
  pose proof (index_ok_none _ _ _ h Ht) as Htn.
  specialize (Hs h). specialize (Ht h). split.
  - destruct (simplified_to_index store !! h) as [j|].
    { destruct Hs as [(e & -> & _) _]. done. }
    destruct (traditional_to_index store !! h) as [j|].
    { destruct Ht as [(e & -> & _) _]. done. }
    intros _ e He. split; [by apply Hs|by apply Ht].
  - intros Hno. rewrite (proj2 Hsn), (proj2 Htn); [done|..];
      intros e He; by apply Hno.
Qed.

(** X10: a string that is no entry's simplified form but is some entry's
    traditional form is found through the traditional index: [get_entry]
    returns the last entry of the file with that traditional form. *)
Theorem traditional_lookup_returns_last file store h :
  __init__ file = Ok store →
  (∀ e, e ∈ get_entries store → simplified e ≠ h) →
  (∃ X, X ∈ get_entries store ∧ traditional X = h) →
  ∃ j Z, get_entry store h = Ok (Some Z) ∧ get_entries store !! j = Some Z ∧
         traditional Z = h ∧
         ∀ j' Z', j < j' → get_entries store !! j' = Some Z' → traditional Z' ≠ h.
Proof.
  intros Hok Hno HX.
  destruct (get_entry_traditional_last _ _ _ Hok Hno HX)
    as (j & Z & Hget & [(Z0 & HZ0 & HZ0h) Hlast] & HZ).
  assert (Z0 = Z) as -> by congruence. by exists j, Z.
Qed.

(** X11: when the simplified forms of the entries are pairwise different, every
    entry is returned by [get_entry] on its own simplified form. *)
Theorem distinct_simplified_all_retrievable file store e :
  __init__ file = Ok store →
  NoDup (simplified <$> get_entries store) →
  e ∈ get_entries store →
  get_entry store (simplified e) = Ok (Some e).
Proof.
  intros [Hs _]%init_store_ok Hnd He.
  specialize (Hs (simplified e)). unfold get_entry, get_entries, getitem in *.
  destruct (simplified_to_index store !! simplified e) as [j0|];
    [|by destruct (Hs e He)].
  destruct Hs as [(Z0 & HZ0 & HZ0k) _]. rewrite HZ0.
  apply list_elem_of_lookup in He as [i Hi].
  assert (i = j0) as ->.
  { eapply NoDup_lookup; [done| |]; rewrite list_lookup_fmap.
    - by rewrite Hi.
    - rewrite HZ0. simpl. by rewrite HZ0k. }
  simpl. do 2 f_equal. congruence.
Qed.

(** X12: on a built dictionary the four field getters never raise; they return
    the fields of one and the same entry, the one that [get_entry] returns
    for the string, or [None] all together. *)
Theorem field_getters_agree file store h :
  __init__ file = Ok store →
  ∃ r, get_entry store h = Ok r ∧
       get_definitions store h = Ok (definitions <$> r) ∧
       get_pinyin store h = Ok (pinyin <$> r) ∧
       get_simplified store h = Ok (simplified <$> r) ∧
       get_traditional store h = Ok (traditional <$> r).
Proof.
  intros Hok.
  destruct (get_entry_total file store h Hok) as [r Hr].
  exists r. unfold get_definitions, get_pinyin, get_simplified, get_traditional,
    _get_field. rewrite Hr. by destruct r.
Qed.

(** X13: looking up the simplified form of an entry of a built dictionary gives
    that form back from [get_simplified]; looking up its traditional form
    gives that form back from [get_traditional] unless the string is also
    the simplified form of some entry. *)
Theorem getters_return_looked_up_form file store e :
  __init__ file = Ok store →
  e ∈ get_entries store →
  get_simplified store (simplified e) = Ok (Some (simplified e)) ∧
  ((∀ e', e' ∈ get_entries store → simplified e' ≠ traditional e) →
   get_traditional store (traditional e) = Ok (Some (traditional e))).
Proof.
  intros Hok He. unfold get_simplified, get_traditional, _get_field. split.
  - destruct (get_entry_simplified_last file store (simplified e) Hok)
      as (j & Z & -> & [(Z0 & HZ0 & HZ0k) _] & HZ); [by exists e|].
    simpl. do 2 f_equal. congruence.
  - intros Hno.
    destruct (get_entry_traditional_last file store (traditional e) Hok Hno)
      as (j & Z & -> & [(Z0 & HZ0 & HZ0k) _] & HZ); [by exists e|].
    simpl. do 2 f_equal. congruence.
Qed.

(** The loop over two files in a row is the loop over the first, then the
    loop over the second from where the first ended. *)
Lemma parse_lines_app a b : ∀ self,
  parse_lines self (length (entries self)) (a ++ b) =
  (s ← parse_lines self (length (entries self)) a;
   parse_lines s (length (entries s)) b).
Proof.
  induction a as [|line a IH]; intros self; [done|].
  cbn [app]. rewrite !parse_lines_cons.
  destruct (_parse_line self line) as [[self' [e|]]|] eqn:Hline; [| |done];
    apply parse_line_frame in Hline as (He & _ & _).
  - set (self1 := {| _data_datetime := _data_datetime self';
                     entries := entries self' ++ [e];
                     simplified_to_index := _; traditional_to_index := _ |}).
    replace (S (length (entries self))) with (length (entries self1)); [apply IH|].
    unfold self1. cbn [entries]. rewrite length_app, He. simpl. lia.
  - rewrite <- He. apply IH.
Qed.

(** X21: adding a dictionary line at the end of a file that builds adds its
    entry at the end of the list and keeps the timestamp; the new entry is
    what [get_entry] returns for its simplified form, and the lookup of
    every string other than its two forms is unchanged. *)
Theorem appended_line_is_local file line store e :
  __init__ file = Ok store → parses_to line e →
  ∃ store', __init__ (file ++ [line]) = Ok store' ∧
            get_entries store' = get_entries store ++ [e] ∧
            get_data_datetime store' = get_data_datetime store ∧
            get_entry store' (simplified e) = Ok (Some e) ∧
            ∀ h, h ≠ simplified e → h ≠ traditional e →
                 get_entry store' h = get_entry store h.
Proof.
  intros Hok Hline. pose proof (init_store_ok _ _ Hok) as [Hs Ht].
  unfold __init__, _parse_file in *. cbn [_data_datetime] in *.
  pose proof (parse_lines_app file [line]
                {| _data_datetime := None; entries := [];
                   simplified_to_index := ∅; traditional_to_index := ∅ |}) as Happ.
  cbn [entries length] in Happ. rewrite Happ, Hok. clear Happ.
  eexists. split.
  { cbn [mbind result_bind]. rewrite parse_lines_cons.
    rewrite (proj2 (parse_line_entry store line store e)) by done.
    reflexivity. }
  unfold get_entries, get_data_datetime, get_entry, getitem.
  cbn [entries _data_datetime simplified_to_index traditional_to_index].
  split_and!; [done|done| |].
  - rewrite lookup_insert_eq, lookup_app_r by done.
    by rewrite Nat.sub_diag.
  - intros h Hhs Hht. rewrite !lookup_insert_ne by done.
    specialize (Hs h). specialize (Ht h).
    destruct (simplified_to_index store !! h) as [j|].
    { destruct Hs as [(e0 & He0 & _) _].
      by rewrite (lookup_app_l_Some _ _ _ _ He0), He0. }
    destruct (traditional_to_index store !! h) as [j|]; [|done].
    destruct Ht as [(e0 & He0 & _) _].
    by rewrite (lookup_app_l_Some _ _ _ _ He0), He0.
Qed.

End QueryProperties.

(** ** The line grammar *)

Section GrammarProperties.

Lemma split_pieces sep s p :
  p ∈ split sep s → (sep ∉ p) ∧ ∀ c, c ∈ p → c ∈ s.
Proof.
  revert p. induction s as [|c s IH]; intros p; cbn [split].
  - intros ->%list_elem_of_singleton. split; [apply not_elem_of_nil|done].
  - destruct (N.eqb_spec c sep) as [->|Hne].
    + intros [->|Hp]%elem_of_cons.
      * split; [apply not_elem_of_nil|]. intros c Hc. inversion Hc.
      * destruct (IH p Hp) as [Hsep Hsub]. split; [done|].
        intros c Hc. by apply list_elem_of_further, Hsub.
    + destruct (split sep s) as [|q qs]; cbn [cons_head].
      * intros ->%list_elem_of_singleton. split.
        -- intros ->%list_elem_of_singleton. done.
        -- intros d ->%list_elem_of_singleton. apply list_elem_of_here.
      * intros [->|Hp]%elem_of_cons.
        -- destruct (IH q (list_elem_of_here _ _)) as [Hsep Hsub]. split.
           ++ intros [Heq|Hq]%elem_of_cons; [by subst|done].
           ++ intros d [->|Hd]%elem_of_cons; [apply list_elem_of_here|].
              by apply list_elem_of_further, Hsub.
        -- destruct (IH p (list_elem_of_further _ _ _ Hp)) as [Hsep Hsub].
           split; [done|]. intros d Hd. by apply list_elem_of_further, Hsub.
Qed.

Lemma count_cons c d s :
  count c (d :: s) = if decide (d = c) then S (count c s) else count c s.
Proof.
  unfold count. destruct (decide (d = c)) as [Hd|Hd].
  - by rewrite filter_cons_True.
  - by rewrite filter_cons_False.
Qed.

Lemma count_zero c s : count c s = 0 ↔ c ∉ s.
Proof.
  induction s as [|d s IH].
  - split; [intros _; apply not_elem_of_nil|done].
  - rewrite count_cons, not_elem_of_cons. destruct (decide (d = c)) as [->|Hd].
    + split; [done|]. by intros [? _].
    + rewrite IH. split; [by intros ?; split|by intros [_ ?]].
Qed.

Lemma cons_head_length c ps : ps ≠ [] → length (cons_head c ps) = length ps.
Proof. by destruct ps. Qed.

(** [split] returns one more piece than there are separators. *)
Lemma split_length sep s : length (split sep s) = S (count sep s).
Proof.
  induction s as [|c s IH]; [done|]. cbn [split]. rewrite count_cons.
  destruct (N.eqb_spec c sep) as [->|Hne].
  - rewrite decide_True by done. cbn [length]. by rewrite IH.
  - rewrite decide_False by done. rewrite cons_head_length; [done|].
    intros Hnil. by rewrite Hnil in IH.
Qed.

(** The glosses: one more than there are [/] and [;] in the text. *)
Lemma glosses_length a b s :
  a ≠ b →
  length (concat (map (split b) (split a s))) = S (count a s + count b s).
Proof.
  intros Hab. induction s as [|c s IH]; [done|]. cbn [split]. rewrite !count_cons.
  destruct (N.eqb_spec c a) as [->|Hca].
  - rewrite decide_True by done. rewrite decide_False by done.
    cbn [map concat split app length]. by rewrite IH.
  - rewrite decide_False by done.
    destruct (split a s) as [|p ps]; [done|]. cbn [cons_head map concat split] in *.
    rewrite length_app in *. destruct (N.eqb_spec c b) as [->|Hcb].
    + rewrite decide_True by done. cbn [length]. lia.
    + rewrite decide_False by done. rewrite cons_head_length; [lia|].
      intros Hnil. pose proof (split_length b p) as Hl. by rewrite Hnil in Hl.
Qed.

(** The tokens of [split()] are non-empty runs of visible characters of the
    text. *)
Lemma split_ws_tokens s t :
  t ∈ split_ws s → t ≠ [] ∧ ∀ c, c ∈ t → isspace c = false ∧ c ∈ s.
Proof.
  revert t. induction s as [|c s IH]; intros t; cbn [split_ws].
  - intros Ht. inversion Ht.
  - destruct (isspace c) eqn:Hc.
    + intros [Hne Hsub]%IH. split; [done|]. intros d Hd.
      destruct (Hsub d Hd). split; [done|]. by apply list_elem_of_further.
    + assert (∀ d, d ∈ [c] → isspace d = false ∧ d ∈ c :: s) as Hone.
      { intros d ->%list_elem_of_singleton. split; [done|apply list_elem_of_here]. }
      assert (∀ t', t' ∈ split_ws s →
                t' ≠ [] ∧ ∀ d, d ∈ t' → isspace d = false ∧ d ∈ c :: s) as Hrest.
      { intros t' [Hne Hsub]%IH. split; [done|]. intros d Hd.
        destruct (Hsub d Hd). split; [done|]. by apply list_elem_of_further. }
      destruct s as [|d r].
      { intros ->%list_elem_of_singleton. done. }
      destruct (isspace d).
      * intros [->|Ht]%elem_of_cons; [done|by apply Hrest].
      * destruct (split_ws (d :: r)) as [|q qs]; cbn [cons_head].
        { intros ->%list_elem_of_singleton. done. }
        intros [->|Ht]%elem_of_cons.
        -- split; [done|]. intros x [->|Hx]%elem_of_cons.
           ++ split; [done|apply list_elem_of_here].
           ++ by apply (Hrest q (list_elem_of_here _ _)).
        -- apply Hrest. by apply list_elem_of_further.
Qed.

Lemma removelast_elem {A} (l : list A) x : x ∈ removelast l → x ∈ l.
Proof.
  induction l as [|y l IH]; [done|]. cbn [removelast].
  destruct l as [|z l]; [intros Hx; inversion Hx|].
  intros [->|Hx]%elem_of_cons; [apply list_elem_of_here|].
  by apply list_elem_of_further, IH.
Qed.

Lemma elem_of_concat_map {A B} (f : A → list B) l y :
  y ∈ concat (map f l) ↔ ∃ x, x ∈ l ∧ y ∈ f x.
Proof.
  induction l as [|a l IH]; cbn [map concat].
  - split; [intros Hy; inversion Hy|]. intros (x & Hx & _). inversion Hx.
  - rewrite elem_of_app, IH. split.
    + intros [Hy|(x & Hx & Hy)].
      * exists a. split; [apply list_elem_of_here|done].
      * exists x. split; [by apply list_elem_of_further|done].
    + intros (x & [->|Hx]%elem_of_cons & Hy); [by left|]. right. eauto.
Qed.

Lemma elem_of_concat {A} (ls : list (list A)) y :
  y ∈ concat ls ↔ ∃ l, l ∈ ls ∧ y ∈ l.
Proof.
  rewrite <- (map_id ls) at 1. apply (elem_of_concat_map id).
Qed.

Lemma normalised_elem line c : c ∈ normalised line → c ∈ line.
Proof. intros Hc. by eapply strip_elem, rstrip_by_elem. Qed.

(** X16: every entry that the grammar returns is well formed: both headwords are
    non-empty and free of whitespace, [/] and [[]; the pinyin has no [/] and
    no [[]; there is at least one definition and no definition contains [/]
    or [;]; every character of every field is a character of the line. *)
Theorem parsed_entry_well_formed line e :
  parse_data_line line = Ok e →
  headword_ok (traditional e) ∧ headword_ok (simplified e) ∧
  (ord "/" ∉ pinyin e) ∧ (ord "[" ∉ pinyin e) ∧
  definitions e ≠ [] ∧
  (∀ d, d ∈ definitions e → (ord "/" ∉ d) ∧ (ord ";" ∉ d)) ∧
  (∀ c, c ∈ traditional e ++ simplified e ++ pinyin e ++ concat (definitions e) →
        c ∈ line).
Proof.
  intros (chinese & english & hw & seg & t & s & H1 & H2 & H3 & ->)%parse_data_line_inv.
  cbn [traditional simplified pinyin definitions].
  destruct (split_max_1_shape (ord "/") (normalised line))
    as [[_ Hone]|(a & b & Hab & Ha & Htwo)]; [congruence|].
  rewrite Htwo in H1. injection H1 as -> ->.
  assert (∀ c, c ∈ chinese → c ∈ line) as Hchinese.
  { intros c Hc. apply normalised_elem. rewrite Hab. apply elem_of_app. by left. }
  assert (∀ c, c ∈ english → c ∈ line) as Henglish.
  { intros c Hc. apply normalised_elem. rewrite Hab. apply elem_of_app. right.
    by apply list_elem_of_further. }
  assert (hw ∈ split (ord "[") (strip chinese)) as [Hhw1 Hhw2]%split_pieces.
  { rewrite H2. apply list_elem_of_here. }
  assert (seg ∈ split (ord "[") (strip chinese)) as [Hseg1 Hseg2]%split_pieces.
  { rewrite H2. apply list_elem_of_further, list_elem_of_here. }
  assert (∀ w, w ∈ split_ws (strip hw) →
            headword_ok w ∧ ∀ c, c ∈ w → c ∈ line) as Hword.
  { intros w [Hne Hsub]%split_ws_tokens.
    assert (∀ c, c ∈ w → c ∈ hw) as Hwhw.
    { intros c Hc. by apply strip_elem, Hsub. }
    split; [split_and!|].
    - done.
    - intros c Hc. by apply Hsub.
    - intros Hc. apply Ha. by apply strip_elem, Hhw2, Hwhw.
    - intros Hc. by apply Hhw1, Hwhw.
    - intros c Hc. by apply Hchinese, strip_elem, Hhw2, Hwhw. }
  destruct (Hword t) as [Ht1 Ht2]; [rewrite H3; apply list_elem_of_here|].
  destruct (Hword s) as [Hs1 Hs2];
    [rewrite H3; apply list_elem_of_further, list_elem_of_here|].
  assert (∀ d, d ∈ flat_glosses english →
            (ord "/" ∉ d) ∧ (ord ";" ∉ d) ∧ ∀ c, c ∈ d → c ∈ english) as Hdef.
  { intros d (sense & [Hs3 Hs4]%split_pieces & Hd)%elem_of_concat_map.
    apply split_pieces in Hd as [Hd1 Hd2]. split_and!; [|done|].
    - intros Hc. by apply Hs3, Hd2.
    - intros c Hc. by apply Hs4, Hd2. }
  split_and!; try done.
  - intros Hc. by apply Ha, strip_elem, Hseg2, removelast_elem.
  - intros Hc. by apply Hseg1, removelast_elem.
  - unfold flat_glosses. intros Hnil.
    pose proof (glosses_length (ord "/") (ord ";") english) as Hlen.
    rewrite Hnil in Hlen. by specialize (Hlen ltac:(done)).
  - intros d Hd. destruct (Hdef d Hd) as (? & ? & _). done.
  - intros c. rewrite !elem_of_app. intros [Hc|[Hc|[Hc|Hc]]].
    + by apply Ht2.
    + by apply Hs2.
    + by apply Hchinese, strip_elem, Hseg2, removelast_elem.
    + apply elem_of_concat in Hc as (d & Hd & Hc).
      destruct (Hdef d Hd) as (_ & _ & Hsub). by apply Henglish, Hsub.
Qed.

(** X17: the number of definitions of a parsed line is one more than the number
    of [/] and [;] characters in the text after the first [/]. *)
Theorem definitions_counted_by_delimiters line e :
  parse_data_line line = Ok e →
  ∃ chinese english,
    split_max (ord "/") (normalised line) 1 = [chinese; english] ∧
    length (definitions e) = S (count (ord "/") english + count (ord ";") english).
Proof.
  intros (chinese & english & hw & seg & t & s & H1 & H2 & H3 & ->)%parse_data_line_inv.
  exists chinese, english. split; [done|]. by apply glosses_length.
Qed.

(** X18: the grammar accepts a line exactly when, after whitespace and trailing
    slashes are removed, it contains a [/], the text before the first [/]
    contains exactly one [[], and the text before that [[] consists of
    exactly two whitespace-separated tokens. *)
Theorem dictionary_line_accepted_iff line :
  (∃ e, parse_data_line line = Ok e) ↔
  (ord "/" ∈ normalised line) ∧
  count (ord "[") (chinese_part line) = 1 ∧
  length (headword_tokens line) = 2.
Proof.
  unfold headword_tokens, headword_segment, chinese_part. split.
  - intros [e (chinese & english & hw & seg & t & s & H1 & H2 & H3 & ->)%parse_data_line_inv].
    rewrite H1. cbn [hd]. split_and!.
    + destruct (split_max_1_shape (ord "/") (normalised line))
        as [[_ Hone]|(a & b & -> & _)]; [congruence|].
      apply elem_of_app. right. apply list_elem_of_here.
    + pose proof (split_length (ord "[") (strip chinese)) as Hlen.
      rewrite H2 in Hlen. cbn [length] in Hlen. lia.
    + rewrite H2. cbn [hd]. by rewrite H3.
  - intros (Hsl & Hbr & Htok).
    destruct (split_max_1_shape (ord "/") (normalised line))
      as [[Hno _]|(a & b & _ & _ & Htwo)]; [done|].
    rewrite Htwo in *. cbn [hd] in *.
    pose proof (split_length (ord "[") (strip a)) as Hlen. rewrite Hbr in Hlen.
    destruct (split (ord "[") (strip a)) as [|hw [|seg [|]]] eqn:H2; try done.
    cbn [hd] in *.
    destruct (split_ws (strip hw)) as [|t [|s [|]]] eqn:H3; try done.
    eexists. by eapply parse_data_line_steps.
Qed.

(** ** Writing an entry as a line and reading it back *)

Lemma split_join sep ps :
  ps ≠ [] → (∀ p, p ∈ ps → sep ∉ p) → split sep (join [sep] ps) = ps.
Proof.
  induction ps as [|p ps IH]; [done|]. intros _ Hall. destruct ps as [|q ps].
  - cbn [join]. apply split_notin, Hall, list_elem_of_here.
  - cbn [join app] in *. rewrite split_app by apply Hall, list_elem_of_here.
    rewrite IH; [done..|]. intros r Hr. by apply Hall, list_elem_of_further.
Qed.

Lemma join_last sep ps d :
  last ps = Some d → d ≠ [] → last (join sep ps) = last d.
Proof.
  induction ps as [|p ps IH]; [done|]. destruct ps as [|q ps].
  - rewrite last_singleton. by intros [= ->].
  - rewrite last_cons_cons. intros Hd Hne. cbn [join] in *.
    rewrite !last_app, IH by done.
    destruct d as [|c d]; [done|]. destruct (last (c :: d)) eqn:Hl; [done|].
    by apply last_None in Hl.
Qed.

Lemma glosses_join ds :
  ds ≠ [] → (∀ d, d ∈ ds → (ord "/" ∉ d) ∧ (ord ";" ∉ d)) →
  flat_glosses (join [ord "/"] ds) = ds.
Proof.
  intros Hne Hall. unfold flat_glosses. rewrite split_join; [|done|].
  2: { intros d Hd. by apply Hall. }
  clear Hne. induction ds as [|d ds IH]; [done|]. cbn [map concat].
  rewrite split_notin by apply Hall, list_elem_of_here.
  rewrite IH; [done|]. intros d' Hd'. by apply Hall, list_elem_of_further.
Qed.

Lemma split_ws_visible a b s :
  isspace a = false → isspace b = false →
  split_ws (a :: b :: s) = cons_head a (split_ws (b :: s)).
Proof.
  intros Ha Hb.
  change (split_ws (a :: b :: s))
    with (if isspace a then split_ws (b :: s)
          else if isspace b then [a] :: split_ws (b :: s)
               else cons_head a (split_ws (b :: s))).
  by rewrite Ha, Hb.
Qed.

Lemma split_ws_space b s : isspace b = true → split_ws (b :: s) = split_ws s.
Proof. intros Hb. cbn [split_ws]. by rewrite Hb. Qed.

Lemma split_ws_cut a b s :
  isspace a = false → isspace b = true →
  split_ws (a :: b :: s) = [a] :: split_ws s.
Proof.
  intros Ha Hb. rewrite <- (split_ws_space b s) by done.
  change (split_ws (a :: b :: s))
    with (if isspace a then split_ws (b :: s)
          else if isspace b then [a] :: split_ws (b :: s)
               else cons_head a (split_ws (b :: s))).
  by rewrite Ha, Hb.
Qed.

(** A run of visible characters followed by whitespace is the first token. *)
Lemma split_ws_word w c rest :
  w ≠ [] → (∀ x, x ∈ w → isspace x = false) → isspace c = true →
  split_ws (w ++ c :: rest) = w :: split_ws rest.
Proof.
  intros Hne Hw Hc. induction w as [|a w IH]; [done|].
  assert (isspace a = false) as Ha by apply Hw, list_elem_of_here.
  assert (∀ x, x ∈ w → isspace x = false) as Hw'.
  { intros x Hx. by apply Hw, list_elem_of_further. }
  destruct w as [|b w].
  - cbn [app]. by apply split_ws_cut.
  - assert (isspace b = false) as Hb by apply Hw', list_elem_of_here.
    change ((a :: b :: w) ++ c :: rest) with (a :: b :: (w ++ c :: rest)).
    rewrite split_ws_visible by done.
    change (b :: (w ++ c :: rest)) with ((b :: w) ++ c :: rest).
    by rewrite IH.
Qed.

Lemma split_ws_one w :
  w ≠ [] → (∀ x, x ∈ w → isspace x = false) → split_ws w = [w].
Proof.
  intros Hne Hw. induction w as [|a w IH]; [done|].
  assert (isspace a = false) as Ha by apply Hw, list_elem_of_here.
  destruct w as [|b w].
  - cbn [split_ws]. by rewrite Ha.
  - assert (isspace b = false) as Hb
      by apply Hw, list_elem_of_further, list_elem_of_here.
    rewrite split_ws_visible by done. rewrite IH; [done..|].
    intros x Hx. by apply Hw, list_elem_of_further.
Qed.

(** Text that starts and ends with a visible character is left by [strip]. *)
Lemma strip_id s a z :
  head s = Some a → isspace a = false → last s = Some z → isspace z = false →
  strip s = s.
Proof.
  intros Hhead Ha Hz Hzs. destruct s as [|a' s]; [done|]. injection Hhead as ->.
  unfold strip. rewrite lstrip_by_cons_id by done.
  apply rstrip_by_id. intros c Hc. congruence.
Qed.

Lemma headword_ok_cons w :
  headword_ok w → ∃ a r, w = a :: r ∧ isspace a = false ∧
                         ∃ z, last w = Some z ∧ isspace z = false.
Proof.
  intros (Hne & Hsp & _ & _). destruct w as [|a r]; [done|].
  exists a, r. split_and!; [done|apply Hsp, list_elem_of_here|].
  destruct (last (a :: r)) as [z|] eqn:Hl; [|by apply last_None in Hl].
  exists z. split; [done|]. by apply Hsp, last_Some_elem_of.
Qed.

(** The grammar reads the line of a writable entry back as that entry. *)
Lemma entry_line_parses e : entry_ok e → parse_data_line (entry_line e) = Ok e.
Proof.
  destruct e as [T S P D]. unfold entry_ok, entry_line.
  cbn [traditional simplified pinyin definitions].
  intros (HT & HS & _ & HP1 & HP2 & HD & (dl & Hdl & Hdlne)).
  assert (D ≠ []) as HDne by (intros ->; done).
  destruct (headword_ok_cons T HT) as (t0 & T' & -> & Ht0 & zt & Hzt & Hzts).
  destruct (headword_ok_cons S HS) as (s0 & S' & -> & Hs0 & zs & Hzs & Hzss).
  destruct HT as (_ & HTsp & HTsl & HTbr). destruct HS as (_ & HSsp & HSsl & HSbr).
  set (T := t0 :: T') in *. set (S := s0 :: S') in *.
  change (str " ") with [32%N]. change (str " [") with ([32%N] ++ [ord "["]).
  change (str "] /") with ([ord "]"] ++ [32%N] ++ [ord "/"]).
  change (str "/") with [ord "/"].
  set (J := join [ord "/"] D).
  assert (∃ c, last J = Some c ∧ c ≠ ord "/") as (cj & Hcj & Hcjne).
  { unfold J. rewrite (join_last _ _ dl) by done.
    destruct (last dl) as [c|] eqn:Hl; [|by apply last_None in Hl].
    exists c. split; [done|]. intros ->. apply last_Some_elem_of in Hl.
    destruct (HD dl) as [Hsl _]; [by apply last_Some_elem_of|]. done. }
  set (hw := T ++ [32%N] ++ S).
  set (X := hw ++ [32%N] ++ [ord "["] ++ P ++ [ord "]"]).
  assert (T ++ [32%N] ++ S ++ ([32%N] ++ [ord "["]) ++ P
            ++ ([ord "]"] ++ [32%N] ++ [ord "/"]) ++ J ++ [ord "/"]
          = ((X ++ [32%N]) ++ ord "/" :: J) ++ [ord "/"]) as ->.
  { unfold X, hw. by rewrite <- !app_assoc. }
  assert (ord "/" ∉ X ++ [32%N]) as Hnosl.
  { unfold X, hw. notin_pieces. }
  assert (normalised (((X ++ [32%N]) ++ ord "/" :: J) ++ [ord "/"])
          = (X ++ [32%N]) ++ ord "/" :: J) as Hnorm.
  { unfold normalised.
    rewrite (strip_id _ t0 (ord "/")); [|done|done| |done].
    2: { by rewrite last_app. }
    unfold rstrip_char. rewrite rstrip_by_app_all by done.
    apply rstrip_by_id. intros c. rewrite last_app_cons, last_cons, Hcj.
    intros [= <-]. by apply N.eqb_neq. }
  assert (strip X = X) as HX.
  { apply (strip_id _ t0 (ord "]")); [done|done| |done].
    unfold X. by rewrite !last_app. }
  assert (strip hw = hw) as Hhw.
  { apply (strip_id _ t0 zs); [done|done| |done].
    unfold hw. by rewrite !last_app, Hzs. }
  rewrite (parse_data_line_steps _ (X ++ [32%N]) J (hw ++ [32%N]) (P ++ [ord "]"]) T S).
  - rewrite removelast_last. unfold J. rewrite glosses_join; done.
  - rewrite Hnorm. rewrite split_max_app by done. by rewrite split_max_0.
  - rewrite strip_app_blank, HX by done. unfold X.
    change (hw ++ [32%N] ++ [ord "["] ++ P ++ [ord "]"])
      with (hw ++ [32%N] ++ ord "[" :: (P ++ [ord "]"])).
    rewrite app_assoc, split_app.
    + rewrite split_notin; [done|]. notin_pieces.
    + unfold hw. notin_pieces.
  - rewrite strip_app_blank, Hhw by done. unfold hw.
    change (T ++ [32%N] ++ S) with (T ++ 32%N :: S).
    rewrite split_ws_word, split_ws_one; done.
Qed.

Lemma forallb_elem {A} (f : A → bool) l :
  forallb f l = true ↔ ∀ x, x ∈ l → f x = true.
Proof.
  rewrite forallb_forall. split; intros Hall x Hx; apply Hall;
    by apply list_elem_of_In.
Qed.

Lemma neqb_true (a b : N) : negb (a =? b)%N = true ↔ a ≠ b.
Proof. rewrite negb_true_iff. apply N.eqb_neq. Qed.

Lemma headword_okb_ok w : headword_okb w = true → headword_ok w.
Proof.
  unfold headword_okb, headword_ok. destruct w as [|a w]; [done|].
  rewrite forallb_elem. intros Hall. split_and!; [done|..].
  - intros c [[Hc _]%andb_true_iff _]%Hall%andb_true_iff.
    by apply negb_true_iff.
  - intros [[_ Hc%neqb_true]%andb_true_iff _]%Hall%andb_true_iff. done.
  - intros [_ Hc%neqb_true]%Hall%andb_true_iff. done.
Qed.

(** The test is sound for the conditions. *)
Lemma entry_okb_ok e : entry_okb e = true → entry_ok e.
Proof.
  unfold entry_okb, entry_ok. rewrite !andb_true_iff, !forallb_elem.
  intros [[[[[HT HS] Hh] HP] HD] Hl]. split_and!.
  - by apply headword_okb_ok.
  - by apply headword_okb_ok.
  - by apply negb_true_iff.
  - intros [Hc%neqb_true _]%HP%andb_true_iff. done.
  - intros [_ Hc%neqb_true]%HP%andb_true_iff. done.
  - intros d Hd%HD. rewrite forallb_elem in Hd. split.
    + intros [Hc%neqb_true _]%Hd%andb_true_iff. done.
    + intros [_ Hc%neqb_true]%Hd%andb_true_iff. done.
  - destruct (last (definitions e)) as [[|c d]|]; [done| |done]. by eexists.
Qed.

Lemma entry_line_not_comment e :
  entry_ok e → startswith (str "#") (entry_line e) = false.
Proof.
  intros (HT & _ & Hh & _).
  destruct (headword_ok_cons _ HT) as (t0 & T' & HTeq & _).
  destruct (startswith (str "#") (entry_line e)) eqn:Hs; [|done].
  apply startswith_hash in Hs as [rest Hrest]. unfold entry_line in Hrest.
  rewrite HTeq in Hrest, Hh. injection Hrest as -> _.
  rewrite <- Hh. symmetry. apply startswith_hash. by eexists.
Qed.

End GrammarProperties.

Section RoundTrip.
Context `{DatetimeLib}.

Lemma parse_lines_entry_lines es :
  Forall entry_ok es →
  ∀ self i, ∃ store,
    parse_lines self i (map entry_line es) = Ok store ∧
    entries store = entries self ++ es ∧
    _data_datetime store = _data_datetime self.
Proof.
  induction 1 as [|e es He _ IH]; intros self i.
  - exists self. by rewrite app_nil_r.
  - cbn [map]. rewrite parse_lines_cons.
    rewrite (proj2 (parse_line_entry self (entry_line e) self e)).
    2: { split; [done|]. split; [by apply entry_line_not_comment|].
         by apply entry_line_parses. }
    edestruct IH as (store & -> & Hes & Hdt). exists store.
    split; [done|]. rewrite Hes, Hdt. cbn [entries _data_datetime].
    by rewrite <- app_assoc.
Qed.

(** X19: writing a writable entry in the line layout of the data file, with any
    whitespace after it, and passing the line to [_parse_line] returns that
    entry; the object is left as it was. *)
Theorem entry_line_round_trip self e ws :
  entry_ok e → forallb isspace ws = true →
  _parse_line self (entry_line e ++ ws) = Ok (self, Some e).
Proof.
  intros He Hws. rewrite parse_line_app_blank by done.
  apply parse_line_entry. split; [done|].
  split; [by apply entry_line_not_comment|by apply entry_line_parses].
Qed.

(** X20: a file made of the lines of writable entries builds a dictionary whose
    entry list is the list of those entries, in order, and which has no
    timestamp. *)
Theorem build_from_entry_lines es :
  Forall entry_ok es →
  ∃ store, __init__ (map entry_line es) = Ok store ∧
           get_entries store = es ∧ get_data_datetime store = None.
Proof.
  intros Hes. unfold __init__, _parse_file.
  edestruct (parse_lines_entry_lines es Hes) as (store & -> & Hentries & Hdt).
  exists store. split; [done|]. unfold get_entries, get_data_datetime.
  by rewrite Hentries, Hdt.
Qed.

End RoundTrip.

(** ** The properties on concrete files *)

Lemma built_entries_in_file_order_witness :
  match __init__ undated_file with
  | Ok store => Forall2 parses_to (data_lines undated_file) (get_entries store)
  | Raise _ => False
  end.
Proof.
  built undated_file store E.
  by apply (built_entries_in_file_order undated_file store).
Defined.

Lemma build_error_kinds_witness :
  ValueError_strptime = ValueError_strptime ∨
  ∃ n, n ≠ 2 ∧ ValueError_strptime = ValueError_unpack 2 n.
Proof.
  failed bad_date_file ValueError_strptime E.
  by apply (build_error_kinds bad_date_file ValueError_strptime).
Defined.

Lemma timestamp_of_last_date_line_witness :
  match __init__ dated_file with
  | Ok store => get_data_datetime store = last (omap date_line_value dated_file)
  | Raise _ => False
  end.
Proof.
  built dated_file store E.
  by apply (timestamp_of_last_date_line dated_file store).
Defined.

Lemma days_old_iff_date_line_witness :
  match __init__ dated_file with
  | Ok store =>
    ((∃ n, get_data_days_old store example_now = Ok n) ↔
     (∃ line, line ∈ dated_file ∧ startswith DATE_TAG line = true)) ∧
    (∀ n, get_data_days_old store example_now = Ok n →
          ∃ d, last (omap date_line_value dated_file) = Some d ∧
               n = timedelta_days example_now d)
  | Raise _ => False
  end.
Proof.
  built dated_file store E.
  by apply (days_old_iff_date_line dated_file store example_now).
Defined.

Lemma indexes_hold_last_positions_witness :
  match __init__ collision_file with
  | Ok store =>
    (simplified_to_index store !! str "H" = Some 1 ↔
       last_pos simplified (str "H") (get_entries store) 1) ∧
    (traditional_to_index store !! str "H" = Some 1 ↔
       last_pos traditional (str "H") (get_entries store) 1)
  | Raise _ => False
  end.
Proof.
  built collision_file store E.
  by apply (indexes_hold_last_positions collision_file store (str "H") 1).
Defined.

Lemma get_entry_returns_matching_entry_witness :
  match __init__ collision_file with
  | Ok store =>
    ∃ r, get_entry store (str "H") = Ok r ∧
         ∀ e, r = Some e →
              e ∈ get_entries store ∧
              (simplified e = str "H" ∨ traditional e = str "H")
  | Raise _ => False
  end.
Proof.
  built collision_file store E.
  by apply (get_entry_returns_matching_entry collision_file store (str "H")).
Defined.

Lemma get_entry_none_iff_absent_witness :
  match __init__ collision_file with
  | Ok store =>
    get_entry store (str "Q") = Ok None ↔
    ∀ e, e ∈ get_entries store →
         simplified e ≠ str "Q" ∧ traditional e ≠ str "Q"
  | Raise _ => False
  end.
Proof.
  built collision_file store E.
  by apply (get_entry_none_iff_absent collision_file store (str "Q")).
Defined.

Lemma traditional_lookup_returns_last_witness :
  match __init__ fallback_file with
  | Ok store =>
    ∃ j Z, get_entry store (str "後") = Ok (Some Z) ∧
           get_entries store !! j = Some Z ∧ traditional Z = str "後" ∧
           ∀ j' Z', j < j' → get_entries store !! j' = Some Z' →
                    traditional Z' ≠ str "後"
  | Raise _ => False
  end.
Proof.
  built_entries fallback_file store E [hou_entry_1; ai_entry] Hes.
  apply (traditional_lookup_returns_last fallback_file store (str "後") E);
    rewrite Hes.
  - intros e [->|He%list_elem_of_singleton]%elem_of_cons; [|subst e];
      by vm_compute.
  - exists hou_entry_1. split; [apply list_elem_of_here|reflexivity].
Defined.

Lemma distinct_simplified_all_retrievable_witness :
  match __init__ fallback_file with
  | Ok store => get_entry store (simplified hou_entry_1) = Ok (Some hou_entry_1)
  | Raise _ => False
  end.
Proof.
  built_entries fallback_file store E [hou_entry_1; ai_entry] Hes.
  apply (distinct_simplified_all_retrievable fallback_file store hou_entry_1 E);
    rewrite Hes.
  - apply NoDup_cons. split; [|apply NoDup_singleton].
    intros Hin%list_elem_of_singleton. by vm_compute in Hin.
  - apply list_elem_of_here.
Defined.

Lemma field_getters_agree_witness :
  match __init__ collision_file with
  | Ok store =>
    ∃ r, get_entry store (str "H") = Ok r ∧
         get_definitions store (str "H") = Ok (definitions <$> r) ∧
         get_pinyin store (str "H") = Ok (pinyin <$> r) ∧
         get_simplified store (str "H") = Ok (simplified <$> r) ∧
         get_traditional store (str "H") = Ok (traditional <$> r)
  | Raise _ => False
  end.
Proof.
  built collision_file store E.
  by apply (field_getters_agree collision_file store (str "H")).
Defined.

Lemma getters_return_looked_up_form_witness :
  match __init__ collision_file with
  | Ok store =>
    get_simplified store (simplified collision_Y)
      = Ok (Some (simplified collision_Y)) ∧
    ((∀ e', e' ∈ get_entries store → simplified e' ≠ traditional collision_Y) →
     get_traditional store (traditional collision_Y)
       = Ok (Some (traditional collision_Y)))
  | Raise _ => False
  end.
Proof.
  built_entries collision_file store E [collision_X; collision_Y] Hes.
  apply (getters_return_looked_up_form collision_file store collision_Y E).
  rewrite Hes. apply list_elem_of_further, list_elem_of_here.
Defined.

Lemma trailing_whitespace_is_inert_witness :
  __init__ dated_file_nl = __init__ dated_file.
Proof.
  apply (trailing_whitespace_is_inert dated_file dated_file_nl).
  repeat constructor; by exists [10%N].
Defined.

Lemma parsed_entry_well_formed_witness :
  headword_ok (traditional ai_entry) ∧ headword_ok (simplified ai_entry) ∧
  (ord "/" ∉ pinyin ai_entry) ∧ (ord "[" ∉ pinyin ai_entry) ∧
  definitions ai_entry ≠ [] ∧
  (∀ d, d ∈ definitions ai_entry → (ord "/" ∉ d) ∧ (ord ";" ∉ d)) ∧
  (∀ c, c ∈ traditional ai_entry ++ simplified ai_entry ++ pinyin ai_entry
            ++ concat (definitions ai_entry) →
        c ∈ ai_line).
Proof. apply (parsed_entry_well_formed ai_line ai_entry). by vm_compute. Defined.

Lemma definitions_counted_by_delimiters_witness :
  ∃ chinese english,
    split_max (ord "/") (normalised love_line) 1 = [chinese; english] ∧
    length (flat_glosses (str "to love/to be fond of;to cherish"))
      = S (count (ord "/") english + count (ord ";") english).
Proof.
  apply (definitions_counted_by_delimiters love_line
           {| traditional := str "愛"; simplified := str "爱"; pinyin := str "ai4";
              definitions := flat_glosses (str "to love/to be fond of;to cherish") |}).
  by vm_compute.
Defined.

Lemma entry_line_round_trip_witness :
  _parse_line blank_self (entry_line ai_entry ++ [10%N])
    = Ok (blank_self, Some ai_entry).
Proof.
  apply (entry_line_round_trip blank_self ai_entry [10%N]); [|done].
  apply entry_okb_ok. by vm_compute.
Defined.

Lemma build_from_entry_lines_witness :
  ∃ store : @CcCedict Iso.lib,
    __init__ (map entry_line [hou_entry_1; hou_entry_2; ai_entry]) = Ok store ∧
    get_entries store = [hou_entry_1; hou_entry_2; ai_entry] ∧
    get_data_datetime store = None.
Proof.
  apply (build_from_entry_lines [hou_entry_1; hou_entry_2; ai_entry]).
  repeat (constructor; [apply entry_okb_ok; by vm_compute|]). constructor.
Defined.

Lemma appended_line_is_local_witness :
  match __init__ [hou_1] with
  | Ok store =>
    ∃ store', __init__ ([hou_1] ++ [hou_2]) = Ok store' ∧
              get_entries store' = get_entries store ++ [hou_entry_2] ∧
              get_data_datetime store' = get_data_datetime store ∧
              get_entry store' (simplified hou_entry_2) = Ok (Some hou_entry_2) ∧
              ∀ h, h ≠ simplified hou_entry_2 → h ≠ traditional hou_entry_2 →
                   get_entry store' h = get_entry store h
  | Raise _ => False
  end.
Proof.
  built [hou_1] store E.
  apply (appended_line_is_local [hou_1] hou_2 store hou_entry_2 E).
  by split; vm_compute.
Defined.
